(** * A verified model of [src/calculator.py]

    The module exposes four functions over Python numbers: [add],
    [subtract], [multiply] and [divide].  Their bodies are single
    operator applications, so what they compute is decided by the
    semantics of Python's [+], [-], [*], [/] and [==] on [int] and
    [float].  The development has these layers:

    - [Py]: Python numbers and the operators the module uses
      (arbitrary-precision integers as [Z], floats as IEEE 754 binary64
      through the Standard Library's [SpecFloat]; exceptions carry
      CPython's messages);
    - [Interp]: a small state-and-exception monad in which function
      bodies are written statement by statement;
    - [Calculator]: the four functions;
    - [Observing], [Reading], [Examples]: the vocabulary of the
      statements (assertions on outcomes, floats read as real numbers,
      the floats of the examples);
    - the proofs: the operators, rounding to nearest even, the four
      functions. *)

From Stdlib Require Import ZArith Bool Lia Reals Lra.
From Stdlib Require Import Floats.SpecFloat.
From stdpp Require Import base strings gmap.

Local Open Scope Z_scope.

(** ** Python numbers and operators *)

Module Py.

(** Binary64: 53 bits of precision, exponent of the infinities 1024. *)
Definition prec : Z := 53.
Definition emax : Z := 1024.

(** A number is an [int] (unbounded) or a [float] (binary64). *)
Inductive value : Type :=
| PyInt (z : Z)
| PyFloat (f : spec_float).

(** The exceptions the operators and the module can raise, each with
    its message. *)
Inductive exn : Type :=
| ValueError (msg : string)
| OverflowError (msg : string)
| ZeroDivisionError (msg : string).

(** The outcome of evaluating an expression. *)
Inductive result (A : Type) : Type :=
| Return (v : A)
| Raise (e : exn).
Arguments Return {A} v.
Arguments Raise {A} e.

Definition rbind {A B} (r : result A) (k : A -> result B) : result B :=
  match r with
  | Return v => k v
  | Raise e => Raise e
  end.

Inductive binop : Type := Add | Sub | Mult | TrueDiv.

(** *** Floats *)

Definition float_zero : spec_float := S754_zero false.
Definition float_neg_zero : spec_float := S754_zero true.
Definition float_inf : spec_float := S754_infinity false.
Definition float_neg_inf : spec_float := S754_infinity true.
Definition float_nan : spec_float := S754_nan.

(** [float(z)] for a mathematical integer with an exponent:
    [z * 2^e] rounded to nearest, ties to even. *)
Definition float_of_Z_exp (z e : Z) : spec_float :=
  binary_normalize prec emax z e false.

(** An integer as an exact, not yet rounded, operand. *)
Definition exact_of_Z (z : Z) : spec_float :=
  match z with
  | Z0 => S754_zero false
  | Zpos p => S754_finite false p 0
  | Zneg p => S754_finite true p 0
  end.

Definition is_infinite (f : spec_float) : bool :=
  match f with
  | S754_infinity _ => true
  | _ => false
  end.

Definition is_nan (f : spec_float) : bool :=
  match f with
  | S754_nan => true
  | _ => false
  end.

Definition is_zero (f : spec_float) : bool :=
  match f with
  | S754_zero _ => true
  | _ => false
  end.

(** Conversion of an [int] operand of a float operator
    ([PyLong_AsDouble]): correctly rounded, and an error when the
    rounded magnitude exceeds the largest float. *)
Definition int_to_float (z : Z) : result spec_float :=
  let f := float_of_Z_exp z 0 in
  if is_infinite f
  then Raise (OverflowError "int too large to convert to float")
  else Return f.

(** [float.__add__], [__sub__], [__mul__]: IEEE operations, which
    never raise; [float.__truediv__] raises on a zero divisor. *)
Definition float_op (op : binop) (x y : spec_float) : result spec_float :=
  match op with
  | Add => Return (SFadd prec emax x y)
  | Sub => Return (SFsub prec emax x y)
  | Mult => Return (SFmul prec emax x y)
  | TrueDiv =>
      if is_zero y
      then Raise (ZeroDivisionError "float division by zero")
      else Return (SFdiv prec emax x y)
  end.

(** [int.__truediv__]: the quotient of the two integers rounded
    once to the nearest float; an error when the divisor is zero or
    when the rounded quotient is out of the float range. *)
Definition int_true_divide (x y : Z) : result spec_float :=
  if y =? 0
  then Raise (ZeroDivisionError "division by zero")
  else
    let q := SFdiv prec emax (exact_of_Z x) (exact_of_Z y) in
    if is_infinite q
    then Raise (OverflowError "integer division result too large for a float")
    else Return q.

(** [int.__add__], [__sub__], [__mul__] are exact. *)
Definition int_op (op : binop) (x y : Z) : result value :=
  match op with
  | Add => Return (PyInt (x + y))
  | Sub => Return (PyInt (x - y))
  | Mult => Return (PyInt (x * y))
  | TrueDiv => rbind (int_true_divide x y) (fun q => Return (PyFloat q))
  end.

(** Dispatch of a binary arithmetic operator on the operand types.
    With one [int] and one [float] operand the [int] is first
    converted to [float]. *)
Definition binary_op (op : binop) (a b : value) : result value :=
  match a, b with
  | PyInt x, PyInt y => int_op op x y
  | PyFloat x, PyFloat y =>
      rbind (float_op op x y) (fun r => Return (PyFloat r))
  | PyInt x, PyFloat y =>
      rbind (int_to_float x) (fun x' =>
      rbind (float_op op x' y) (fun r => Return (PyFloat r)))
  | PyFloat x, PyInt y =>
      rbind (int_to_float y) (fun y' =>
      rbind (float_op op x y') (fun r => Return (PyFloat r)))
  end.

(** Unary minus. *)
Definition neg (a : value) : value :=
  match a with
  | PyInt x => PyInt (- x)
  | PyFloat x => PyFloat (SFopp x)
  end.

(** *** Equality [==]

    Between two floats it is the IEEE comparison (a NaN equals
    nothing, the two zeros are equal).  Between a float and an int
    the comparison is exact: the float has to be finite and to denote
    that very integer. *)
Definition float_eq_int (f : spec_float) (z : Z) : bool :=
  match f with
  | S754_zero _ => z =? 0
  | S754_finite s m e =>
      let n := cond_Zopp s (Zpos m) in
      if 0 <=? e then n * 2 ^ e =? z
      else (n mod 2 ^ (- e) =? 0) && (n / 2 ^ (- e) =? z)
  | S754_infinity _ | S754_nan => false
  end.

Definition equal (a b : value) : bool :=
  match a, b with
  | PyInt x, PyInt y => x =? y
  | PyFloat x, PyFloat y => SFeqb x y
  | PyFloat x, PyInt y => float_eq_int x y
  | PyInt x, PyFloat y => float_eq_int y x
  end.

Definition is_float (a : value) : bool :=
  match a with
  | PyFloat _ => true
  | PyInt _ => false
  end.

End Py.
Export Py.

(** ** Function bodies as computations *)

Module Interp.

(** What a call can observe or change: the module's global names, the
    local names of the running function, and the operators evaluated
    so far (most recent last). *)
Inductive event : Type :=
| EvCompare (a b : value)
| EvBinOp (op : binop) (a b : value).

Record state : Type := State {
  globals : gmap string value;
  locals : gmap string value;
  trace : list event
}.

Definition initial : state := State ∅ ∅ [].

Definition M (A : Type) : Type := state -> result A * state.

Definition ret {A} (v : A) : M A := fun st => (Return v, st).

Definition raise {A} (e : exn) : M A := fun st => (Raise e, st).

Definition bind {A B} (c : M A) (k : A -> M B) : M B :=
  fun st =>
    match c st with
    | (Return v, st') => k v st'
    | (Raise e, st') => (Raise e, st')
    end.

(** [x = v] inside a function body binds a local name. *)
Definition assign (x : string) (v : value) : M unit :=
  fun st => (Return tt, State (globals st) (<[x := v]> (locals st)) (trace st)).

(** Evaluation of [a op b] and of [a == b]. *)
Definition binary (op : binop) (a b : value) : M value :=
  fun st =>
    (binary_op op a b,
     State (globals st) (locals st) (trace st ++ [EvBinOp op a b])).

Definition compare_eq (a b : value) : M bool :=
  fun st =>
    (Return (Py.equal a b),
     State (globals st) (locals st) (trace st ++ [EvCompare a b])).

(** A call runs the body in a fresh frame of locals and gives the
    caller its own frame back, whether the body returns or raises. *)
Definition call {A} (body : M A) : M A :=
  fun st =>
    let '(r, st') := body (State (globals st) ∅ (trace st)) in
    (r, State (globals st') (locals st) (trace st')).

Definition outcome {A} (p : result A * state) : result A := fst p.
Definition final {A} (p : result A * state) : state := snd p.

(** The state [st] once the events [evs] have been recorded. *)
Definition after (st : state) (evs : list event) : state :=
  State (globals st) (locals st) (trace st ++ evs).

End Interp.
Export Interp.

Declare Scope py_scope.
Delimit Scope py_scope with py.
Notation "x <- c ;; k" := (bind c (fun x => k))
(at level 100, c at next level, right associativity) : py_scope.
Notation "c ;; k" := (bind c (fun _ => k))
(at level 100, right associativity) : py_scope.
Local Open Scope py_scope.

(** ** The module [calculator] *)

Module Calculator.

(** [return a + b] *)
Definition add (a b : value) : M value :=
  call (v <- binary Add a b ;;
        ret v).

(** [unused_variable = 123; return a - b] *)
Definition subtract (a b : value) : M value :=
  call (assign "unused_variable" (PyInt 123) ;;
        v <- binary Sub a b ;;
        ret v).

(** [return a * b] *)
Definition multiply (a b : value) : M value :=
  call (v <- binary Mult a b ;;
        ret v).

(** [if b == 0: raise ValueError("Cannot divide by zero");
     return a / b] *)
Definition divide (a b : value) : M value :=
  call (zero <- compare_eq b (PyInt 0) ;;
        if zero
        then raise (ValueError "Cannot divide by zero")
        else v <- binary TrueDiv a b ;;
             ret v).

End Calculator.
Export Calculator.

(** ** What is observed of a call *)

Module Observing.

(** [assert r1 == r2] on the outcomes of two calls: it holds when
    both calls return and [==] on the returned values is true; it
    does not when a call raises, or when [==] is false. *)
Definition equal_results (r1 r2 : result value) : bool :=
  match r1, r2 with
  | Return v1, Return v2 => Py.equal v1 v2
  | _, _ => false
  end.

(** [-r], where [r] is the outcome of a call: the exception of the
    call propagates. *)
Definition neg_result (r : result value) : result value :=
  rbind r (fun v => Return (neg v)).

(** A function of two numbers is pure when its outcome does not
    depend on the state it is called in and it leaves both the
    globals and the caller's locals as they were. *)
Definition pure_function (f : value -> value -> M value) : Prop :=
  forall (a b : value) (st1 st2 : state),
    outcome (f a b st1) = outcome (f a b st2) /\
    globals (final (f a b st1)) = globals st1 /\
    locals (final (f a b st1)) = locals st1.

End Observing.
Export Observing.

(** ** Reading floats as real numbers

  The statements about accuracy and range read a float as the real
  number it denotes.  These definitions are used in statements and
  proofs only; nothing in [Py], [Interp] or [Calculator] refers to
  them. *)

Module Reading.

Definition bpow (e : Z) : R := powerRZ 2 e.

(** The real number [m * 2^e]. *)
Definition F2R (m e : Z) : R := (IZR m * bpow e)%R.

(** The real number a finite float denotes (0 for the zeros; the
    value is not meaningful for infinities and NaN). *)
Definition SF2R (f : spec_float) : R :=
  match f with
  | S754_finite s m e => F2R (cond_Zopp s (Zpos m)) e
  | _ => 0%R
  end.

Definition real_of (v : value) : R :=
  match v with
  | PyInt z => IZR z
  | PyFloat f => SF2R f
  end.

Definition signed (s : bool) (r : R) : R := if s then (- r)%R else r.

(** A normal float: finite, with a full 53-bit mantissa. *)
Definition is_normal (f : spec_float) : bool :=
  match f with
  | S754_finite _ m _ => Zpos (digits2_pos m) =? prec
  | _ => false
  end.

Definition is_nan_value (v : value) : bool :=
  match v with
  | PyFloat f => is_nan f
  | PyInt _ => false
  end.

(** The least integer magnitude that rounds out of the float range:
    the midpoint between the largest float, [2^1024 - 2^971], and
    [2^1024]. *)
Definition int_float_limit : Z := 2 ^ 1024 - 2 ^ 970.

(** What a rounding location says about the real [x] being rounded,
    relative to the integer [m]: [x] is [m], or lies strictly between
    [m] and [m + 1], below, at or above the midpoint. *)
Definition inbetween (m : Z) (l : location) (x : R) : Prop :=
  match l with
  | loc_Exact => x = IZR m
  | loc_Inexact Lt => (IZR m < x < IZR m + / 2)%R
  | loc_Inexact Eq => x = (IZR m + / 2)%R
  | loc_Inexact Gt => (IZR m + / 2 < x < IZR m + 1)%R
  end.

(** The same for the mantissa and the two sticky bits of a shift
    record. *)
Definition loc_inv (r : shr_record) (x : R) : Prop :=
  0 <= shr_m r /\ inbetween (shr_m r) (loc_of_shr_record r) x.

(** The last step of [binary_round_aux]: from a rounded mantissa and
    its exponent to a float. *)
Definition make_float (s : bool) (m e : Z) : spec_float :=
  match m with
  | Z0 => S754_zero s
  | Zpos p => if e <=? emax - prec then S754_finite s p e else S754_infinity s
  | Zneg _ => S754_nan
  end.

End Reading.
Export Reading.

(** ** Floats used in the examples *)

Module Examples.
(** [1.0], [0.1], [1e308], [2.5], [10.0] and [3.5] as mantissa and
    exponent. *)
Definition float_1 : spec_float := S754_finite false 4503599627370496 (-52).
Definition float_0_1 : spec_float := S754_finite false 7205759403792794 (-56).
Definition float_1e308 : spec_float := S754_finite false 5010420900022432 971.
Definition float_2_5 : spec_float := S754_finite false 5629499534213120 (-51).
Definition float_10 : spec_float := S754_finite false 5629499534213120 (-49).
Definition float_3_5 : spec_float := S754_finite false 7881299347898368 (-51).

(** [assert f(a, b) == expected], run in the initial state. *)
Definition returns_equal (c : M value) (expected : value) : bool :=
  equal_results (outcome (c initial)) (Return expected).
End Examples.
Export Examples.

(** ** Kinds of arguments *)

Module Inputs.

(** Neither an infinity nor NaN. *)
Definition is_finite_value (v : value) : bool :=
  match v with
  | PyInt _ => true
  | PyFloat (S754_zero _) | PyFloat (S754_finite _ _ _) => true
  | PyFloat _ => false
  end.

(** Finite and different from zero. *)
Definition is_finite_nonzero (v : value) : bool :=
  match v with
  | PyInt z => negb (z =? 0)
  | PyFloat (S754_finite _ _ _) => true
  | PyFloat _ => false
  end.

(** A float as the machine represents it: its mantissa and exponent are
    those of a binary64 number. *)
Definition well_formed (v : value) : bool :=
  match v with
  | PyInt _ => true
  | PyFloat f => valid_binary prec emax f
  end.

Definition is_int_zero (v : value) : bool :=
  match v with
  | PyInt 0 => true
  | _ => false
  end.

End Inputs.
Export Inputs.

(** * Proofs

  ** Facts about the operators *)

Section Operators.

Lemma SFadd_comm (x y : spec_float) :
  SFadd prec emax x y = SFadd prec emax y x.
Proof.
  destruct x as [sx | sx | | sx mx ex], y as [sy | sy | | sy my ey];
    try reflexivity;
    try (destruct sx, sy; reflexivity).
  unfold SFadd. rewrite (Z.min_comm ey ex). f_equal. apply Z.add_comm.
Qed.

Lemma SFmul_comm (x y : spec_float) :
  SFmul prec emax x y = SFmul prec emax y x.
Proof.
  destruct x as [sx | sx | | sx mx ex], y as [sy | sy | | sy my ey];
    try reflexivity;
    try (unfold SFmul; rewrite (xorb_comm sy sx); reflexivity).
  unfold SFmul.
  rewrite (xorb_comm sy sx), (Pos.mul_comm my mx), (Z.add_comm ey ex).
  reflexivity.
Qed.

Lemma SFcompare_refl (x : spec_float) :
  is_nan x = false -> SFcompare x x = Some Eq.
Proof.
  destruct x as [s | s | | s m e]; simpl; intros H; try discriminate H.
  - reflexivity.
  - destruct s; reflexivity.
  - rewrite Z.compare_refl, Pos.compare_cont_refl. destruct s; reflexivity.
Qed.

Lemma SFeqb_refl (x : spec_float) : is_nan x = false -> SFeqb x x = true.
Proof. intros H. unfold SFeqb. rewrite SFcompare_refl; auto. Qed.

(** Rounding an integer commutes with changing its sign. *)
Lemma binary_round_aux_opp (s : bool) (m e : Z) (l : location) :
  binary_round_aux prec emax (negb s) m e l =
  SFopp (binary_round_aux prec emax s m e l).
Proof.
  unfold binary_round_aux.
  destruct (shr_fexp prec emax m e l) as [mrs' e'].
  destruct (shr_fexp prec emax _ e' loc_Exact) as [mrs'' e''].
  destruct (shr_m mrs''); try reflexivity.
  destruct (e'' <=? emax - prec); reflexivity.
Qed.

Lemma binary_round_opp (s : bool) (m : positive) (e : Z) :
  binary_round prec emax (negb s) m e =
  SFopp (binary_round prec emax s m e).
Proof.
  unfold binary_round.
  destruct (shl_align m e _) as [mz ez].
  apply binary_round_aux_opp.
Qed.

(** Up to the sign of a zero result, rounding commutes with negation. *)
Lemma binary_normalize_opp (m e : Z) :
  binary_normalize prec emax (- m) e false =
    SFopp (binary_normalize prec emax m e false) \/
  (m = 0 /\ binary_normalize prec emax (- m) e false = S754_zero false).
Proof.
  destruct m as [| p | p]; simpl.
  - right. split; reflexivity.
  - left. apply (binary_round_opp false).
  - left. rewrite <- (binary_round_opp true). reflexivity.
Qed.

(** [x - y] and [-(y - x)] are the same float, or both are zeros. *)
Lemma SFsub_antisym (x y : spec_float) :
  SFsub prec emax x y = SFopp (SFsub prec emax y x) \/
  (is_zero (SFsub prec emax x y) = true /\
   is_zero (SFsub prec emax y x) = true).
Proof.
  destruct x as [sx | sx | | sx mx ex], y as [sy | sy | | sy my ey];
    try (left; reflexivity);
    try (destruct sx, sy; (left; reflexivity) || (right; split; reflexivity)).
  unfold SFsub. rewrite (Z.min_comm ey ex).
  set (X := cond_Zopp sx _). set (Y := cond_Zopp sy _).
  replace (X - Y) with (- (Y - X)) by lia.
  destruct (binary_normalize_opp (Y - X) (Z.min ex ey)) as [H | [H0 H]].
  - left. exact H.
  - right. rewrite H, H0. split; reflexivity.
Qed.

Lemma eq_refl_not_nan (v : value) :
  match v with PyFloat f => is_nan f = false | PyInt _ => True end ->
  Py.equal v v = true.
Proof.
  destruct v as [z | f]; simpl; intros H.
  - apply Z.eqb_refl.
  - apply SFeqb_refl, H.
Qed.

Lemma binary_op_Mult_comm (a b : value) :
  binary_op Mult a b = binary_op Mult b a.
Proof.
  destruct a as [x | x], b as [y | y]; simpl.
  - rewrite Z.mul_comm. reflexivity.
  - destruct (int_to_float x); simpl; [rewrite SFmul_comm |]; reflexivity.
  - destruct (int_to_float y); simpl; [rewrite SFmul_comm |]; reflexivity.
  - rewrite SFmul_comm. reflexivity.
Qed.

Lemma binary_op_Add_comm (a b : value) :
  binary_op Add a b = binary_op Add b a.
Proof.
  destruct a as [x | x], b as [y | y]; simpl.
  - rewrite Z.add_comm. reflexivity.
  - destruct (int_to_float x); simpl; [rewrite SFadd_comm |]; reflexivity.
  - destruct (int_to_float y); simpl; [rewrite SFadd_comm |]; reflexivity.
  - rewrite SFadd_comm. reflexivity.
Qed.

End Operators.

(** ** Rounding to nearest even, step by step *)

Section Bpow.

Lemma bpow_gt_0 (e : Z) : (0 < bpow e)%R.
Proof. apply powerRZ_lt. lra. Qed.

Lemma bpow_add (a b : Z) : bpow (a + b) = (bpow a * bpow b)%R.
Proof. apply powerRZ_add. lra. Qed.

Lemma bpow_0 : bpow 0 = 1%R.
Proof. reflexivity. Qed.

Lemma bpow_m1 : bpow (-1) = (/ 2)%R.
Proof. unfold bpow. simpl. f_equal. lra. Qed.

Lemma bpow_opp (e : Z) : bpow (- e) = (/ bpow e)%R.
Proof. apply powerRZ_neg'. Qed.

Lemma bpow_IZR (e : Z) : 0 <= e -> bpow e = IZR (2 ^ e).
Proof.
  intros He. unfold bpow.
  rewrite <- (Z2Nat.id e He) at 1.
  rewrite <- pow_powerRZ, pow_IZR, Z2Nat.id by assumption. reflexivity.
Qed.

Lemma bpow_le (a b : Z) : a <= b -> (bpow a <= bpow b)%R.
Proof.
  intros H. replace b with (a + (b - a)) by lia.
  rewrite bpow_add, (bpow_IZR (b - a)) by lia.
  assert (1 <= IZR (2 ^ (b - a)))%R.
  { apply IZR_le. assert (0 < 2 ^ (b - a)) by (apply Z.pow_pos_nonneg; lia). lia. }
  pose proof (bpow_gt_0 a).
  rewrite <- (Rmult_1_r (bpow a)) at 1.
  apply Rmult_le_compat_l; lra.
Qed.

End Bpow.

Section Digits.

Lemma Zdigits2_log2 (p : positive) :
  Zdigits2 (Zpos p) = Z.log2 (Zpos p) + 1.
Proof.
  assert (H : forall q, digits2_pos q = Pos.size q).
  { induction q; simpl; congruence. }
  simpl. rewrite H. destruct p; simpl; lia.
Qed.

Lemma Zdigits2_spec (m : Z) :
  0 < m -> 2 ^ (Zdigits2 m - 1) <= m < 2 ^ Zdigits2 m.
Proof.
  intros H. destruct m as [| p | p]; try lia.
  rewrite Zdigits2_log2.
  replace (Z.log2 (Zpos p) + 1 - 1) with (Z.log2 (Zpos p)) by lia.
  apply Z.log2_spec. lia.
Qed.

Lemma Zdigits2_unique (m k : Z) :
  0 < k -> 2 ^ (k - 1) <= m < 2 ^ k -> Zdigits2 m = k.
Proof.
  intros Hk H.
  assert (0 < m). { assert (0 < 2 ^ (k - 1)) by (apply Z.pow_pos_nonneg; lia). lia. }
  destruct m as [| p | p]; try lia.
  rewrite Zdigits2_log2.
  rewrite (Z.log2_unique (Zpos p) (k - 1)); try lia.
  replace (Z.succ (k - 1)) with k by lia. exact H.
Qed.

Lemma Zdigits2_nonneg (m : Z) : 0 <= Zdigits2 m.
Proof. destruct m; simpl; lia. Qed.

Lemma Zdigits2_pos (m : Z) : 0 < m -> 0 < Zdigits2 m.
Proof. destruct m; simpl; lia. Qed.

Lemma fexp_eq (k : Z) : fexp prec emax k = Z.max (k - 53) (-1074).
Proof. reflexivity. Qed.

End Digits.

Section Shift.

Lemma loc_of_shr_record_of_loc (m : Z) (l : location) :
  loc_of_shr_record (shr_record_of_loc m l) = l.
Proof. destruct l as [| []]; reflexivity. Qed.

Lemma shr_m_shr_record_of_loc (m : Z) (l : location) :
  shr_m (shr_record_of_loc m l) = m.
Proof. destruct l as [| []]; reflexivity. Qed.

Lemma loc_inv_of_loc (m : Z) (l : location) (x : R) :
  0 <= m -> inbetween m l x -> loc_inv (shr_record_of_loc m l) x.
Proof.
  intros Hm H. unfold loc_inv.
  rewrite shr_m_shr_record_of_loc, loc_of_shr_record_of_loc. auto.
Qed.

Lemma shr_1_m (r : shr_record) :
  0 <= shr_m r -> shr_m (shr_1 r) = shr_m r / 2.
Proof.
  destruct r as [m b s]. cbn [shr_m]. intros Hm.
  destruct m as [| [p | p |] | p]; cbn [shr_1 shr_m]; try lia.
  - reflexivity.
  - rewrite Pos2Z.inj_xI. apply Z.div_unique with 1; lia.
  - rewrite Pos2Z.inj_xO. apply Z.div_unique with 0; lia.
  - reflexivity.
Qed.

Lemma shr_1_inv (r : shr_record) (x : R) :
  loc_inv r x -> loc_inv (shr_1 r) (x / 2).
Proof.
  destruct r as [m b s]. unfold loc_inv. intros [Hm H].
  cbn [shr_m] in Hm.
  destruct m as [| [p | p |] | p]; try lia.
  - destruct b, s;
      cbv beta iota zeta delta [inbetween loc_of_shr_record shr_1 shr_m orb] in *;
      (split; [lia | lra]).
  - assert (HI : IZR (Zpos p~1) = (2 * IZR (Zpos p) + 1)%R).
    { rewrite <- mult_IZR, <- plus_IZR. f_equal. }
    destruct b, s;
      cbv beta iota zeta delta [inbetween loc_of_shr_record shr_1 shr_m orb] in *;
      rewrite HI in H; (split; [lia | lra]).
  - assert (HO : IZR (Zpos p~0) = (2 * IZR (Zpos p))%R).
    { rewrite <- mult_IZR. f_equal. }
    destruct b, s;
      cbv beta iota zeta delta [inbetween loc_of_shr_record shr_1 shr_m orb] in *;
      rewrite HO in H; (split; [lia | lra]).
  - destruct b, s;
      cbv beta iota zeta delta [inbetween loc_of_shr_record shr_1 shr_m orb] in *;
      (split; [lia | lra]).
Qed.

Lemma pow2_xO (p : positive) : 2 ^ Zpos p~0 = 2 ^ Zpos p * 2 ^ Zpos p.
Proof.
  replace (Zpos p~0) with (Zpos p + Zpos p) by lia.
  apply Z.pow_add_r; lia.
Qed.

Lemma pow2_xI (p : positive) : 2 ^ Zpos p~1 = 2 * (2 ^ Zpos p * 2 ^ Zpos p).
Proof.
  replace (Zpos p~1) with (1 + (Zpos p + Zpos p)) by lia.
  rewrite Z.pow_add_r, Z.pow_add_r by lia. reflexivity.
Qed.

Lemma iter_shr_m (p : positive) (r : shr_record) :
  0 <= shr_m r -> shr_m (SpecFloat.iter_pos shr_1 p r) = shr_m r / 2 ^ Zpos p.
Proof.
  revert r. induction p as [p IH | p IH |]; intros r Hm; simpl SpecFloat.iter_pos.
  - assert (0 < 2 ^ Zpos p) by (apply Z.pow_pos_nonneg; lia).
    assert (H1 : 0 <= shr_m (shr_1 r)).
    { rewrite shr_1_m by assumption. apply Z.div_pos; lia. }
    assert (H2 : 0 <= shr_m (SpecFloat.iter_pos shr_1 p (shr_1 r))).
    { rewrite IH by assumption. apply Z.div_pos; lia. }
    rewrite IH, IH, shr_1_m by assumption.
    rewrite !Z.div_div by lia. f_equal.
    rewrite pow2_xI. lia.
  - assert (0 < 2 ^ Zpos p) by (apply Z.pow_pos_nonneg; lia).
    assert (H2 : 0 <= shr_m (SpecFloat.iter_pos shr_1 p r)).
    { rewrite IH by assumption. apply Z.div_pos; lia. }
    rewrite IH, IH by assumption.
    rewrite !Z.div_div by lia. f_equal.
    rewrite pow2_xO. lia.
  - rewrite shr_1_m by assumption. reflexivity.
Qed.

Lemma iter_shr_inv (p : positive) (r : shr_record) (x : R) :
  loc_inv r x -> loc_inv (SpecFloat.iter_pos shr_1 p r) (x * bpow (- Zpos p)).
Proof.
  revert r x. induction p as [p IH | p IH |]; intros r x H; simpl SpecFloat.iter_pos.
  - apply shr_1_inv in H. apply IH in H. apply IH in H.
    replace (x * bpow (- Zpos p~1))%R
      with (x / 2 * bpow (- Zpos p) * bpow (- Zpos p))%R; [exact H |].
    replace (- Zpos p~1) with (-1 + (- Zpos p + - Zpos p)) by lia.
    rewrite !bpow_add, bpow_m1. lra.
  - apply IH in H. apply IH in H.
    replace (x * bpow (- Zpos p~0))%R
      with (x * bpow (- Zpos p) * bpow (- Zpos p))%R; [exact H |].
    replace (- Zpos p~0) with (- Zpos p + - Zpos p) by lia.
    rewrite !bpow_add. lra.
  - apply shr_1_inv in H.
    replace (x * bpow (- Zpos 1))%R with (x / 2)%R; [exact H |].
    change (- Zpos 1) with (-1). rewrite bpow_m1. lra.
Qed.

Lemma shr_spec (r : shr_record) (e n : Z) (x : R) :
  loc_inv r x ->
  snd (shr r e n) = e + Z.max 0 n /\
  shr_m (fst (shr r e n)) = shr_m r / 2 ^ Z.max 0 n /\
  loc_inv (fst (shr r e n)) (x * bpow (- Z.max 0 n)).
Proof.
  intros H. destruct n as [| p | p]; simpl.
  - rewrite Z.add_0_r, Z.div_1_r, Rmult_1_r. auto.
  - repeat split.
    + apply iter_shr_m, H.
    + apply (iter_shr_inv p r x H).
    + apply (iter_shr_inv p r x H).
  - rewrite Z.add_0_r, Z.div_1_r, Rmult_1_r. auto.
Qed.

Lemma shr_fexp_spec (m e : Z) (l : location) (x : R) :
  0 <= m -> inbetween m l x ->
  let n := Z.max 0 (fexp prec emax (Zdigits2 m + e) - e) in
  snd (shr_fexp prec emax m e l) = e + n /\
  shr_m (fst (shr_fexp prec emax m e l)) = m / 2 ^ n /\
  loc_inv (fst (shr_fexp prec emax m e l)) (x * bpow (- n)).
Proof.
  intros Hm H n. unfold shr_fexp.
  pose proof (shr_spec _ e (fexp prec emax (Zdigits2 m + e) - e) x
                (loc_inv_of_loc m l x Hm H)) as S.
  rewrite shr_m_shr_record_of_loc in S. exact S.
Qed.

End Shift.

Section Rounding.

Lemma Zdigits2_div_pow2 (m n : Z) :
  0 <= n -> 0 < m / 2 ^ n -> Zdigits2 (m / 2 ^ n) = Zdigits2 m - n.
Proof.
  intros Hn Hq.
  assert (Hp : 0 < 2 ^ n) by (apply Z.pow_pos_nonneg; lia).
  assert (Hm : 0 < m).
  { destruct (Z.lt_ge_cases 0 m) as [|Hle]; [assumption |].
    assert (m / 2 ^ n <= 0) by (apply Z.div_le_upper_bound; lia). lia. }
  pose proof (Zdigits2_spec m Hm) as [Hlo Hhi].
  assert (Hge : 2 ^ n <= m).
  { destruct (Z.lt_ge_cases m (2 ^ n)) as [Hlt|]; [| assumption].
    rewrite Z.div_small in Hq; lia. }
  assert (Hnd : n < Zdigits2 m).
  { destruct (Z.lt_ge_cases n (Zdigits2 m)) as [|Hle]; [assumption |].
    assert (2 ^ Zdigits2 m <= 2 ^ n) by (apply Z.pow_le_mono_r; lia). lia. }
  apply Zdigits2_unique; [lia |]. split.
  - apply Z.div_le_lower_bound; [lia |].
    rewrite <- Z.pow_add_r by lia.
    replace (n + (Zdigits2 m - n - 1)) with (Zdigits2 m - 1) by lia.
    exact Hlo.
  - apply Z.div_lt_upper_bound; [lia |].
    rewrite <- Z.pow_add_r by lia.
    replace (n + (Zdigits2 m - n)) with (Zdigits2 m) by lia.
    exact Hhi.
Qed.

Lemma round_nearest_even_spec (m : Z) (l : location) (x : R) :
  inbetween m l x ->
  (round_nearest_even m l = m \/ round_nearest_even m l = m + 1) /\
  (Rabs (IZR (round_nearest_even m l) - x) <= / 2)%R /\
  ((x < IZR m + / 2)%R -> round_nearest_even m l = m) /\
  ((IZR m + / 2 < x)%R -> round_nearest_even m l = m + 1) /\
  (x = (IZR m + / 2)%R ->
   round_nearest_even m l = if Z.even m then m else m + 1).
Proof.
  intros H.
  destruct l as [| [| |]]; cbn [inbetween round_nearest_even] in *;
    try destruct (Z.even m);
    repeat split; intros;
    try (left; reflexivity); try (right; reflexivity);
    try reflexivity;
    try (apply Rabs_le; rewrite ?plus_IZR; lra);
    lra.
Qed.

(** The second alignment of [binary_round_aux] loses no bit. *)
Lemma second_shift_exact (m' m1 e1 : Z) :
  0 <= m' -> (m1 = m' \/ m1 = m' + 1) ->
  fexp prec emax (Zdigits2 m' + e1) <= e1 ->
  let n2 := Z.max 0 (fexp prec emax (Zdigits2 m1 + e1) - e1) in
  (n2 = 0 \/ n2 = 1) /\ m1 = m1 / 2 ^ n2 * 2 ^ n2.
Proof.
  intros Hm' Hm1 Hf n2. rewrite fexp_eq in Hf.
  assert (Hz : forall k, Z.max 0 (fexp prec emax k - e1) = 0 ->
               (n2 = Z.max 0 (fexp prec emax k - e1)) ->
               (n2 = 0 \/ n2 = 1) /\ m1 = m1 / 2 ^ n2 * 2 ^ n2).
  { intros k Hk E. rewrite E, Hk. split; [auto |].
    change (2 ^ 0) with 1. rewrite Z.div_1_r. lia. }
  destruct Hm1 as [-> | ->].
  - apply (Hz (Zdigits2 m' + e1)); [| reflexivity]. rewrite fexp_eq. lia.
  - destruct (Z.eq_dec m' 0) as [-> | Hnz].
    + apply (Hz (Zdigits2 (0 + 1) + e1)); [| reflexivity].
      rewrite fexp_eq. simpl Zdigits2 in *. lia.
    + assert (Hpos : 0 < m') by lia.
      pose proof (Zdigits2_spec m' Hpos) as [Hlo Hhi].
      pose proof (Zdigits2_pos m' Hpos) as Hd.
      destruct (Z.eq_dec (m' + 1) (2 ^ Zdigits2 m')) as [E | NE].
      * assert (Hd1 : Zdigits2 (m' + 1) = Zdigits2 m' + 1).
        { apply Zdigits2_unique; [lia |].
          replace (Zdigits2 m' + 1 - 1) with (Zdigits2 m') by lia.
          rewrite Z.pow_add_r by lia. change (2 ^ 1) with 2. lia. }
        subst n2. rewrite Hd1, fexp_eq.
        set (k := Z.max (Zdigits2 m' + 1 + e1 - 53) (-1074) - e1).
        assert (Hk : k <= 1) by (unfold k; lia).
        destruct (Z_le_gt_dec k 0) as [Hk0 | Hk0].
        -- rewrite Z.max_l by lia. split; [auto |].
           change (2 ^ 0) with 1. rewrite Z.div_1_r. lia.
        -- rewrite Z.max_r by lia. replace k with 1 by lia.
           split; [auto |]. change (2 ^ 1) with 2.
           assert (E2 : 2 ^ Zdigits2 m' = 2 ^ (Zdigits2 m' - 1) * 2).
           { replace (Zdigits2 m') with (Zdigits2 m' - 1 + 1) at 1 by lia.
             rewrite Z.pow_add_r by lia. reflexivity. }
           rewrite E, E2, Z.div_mul by lia. reflexivity.
      * assert (Hd1 : Zdigits2 (m' + 1) = Zdigits2 m').
        { apply Zdigits2_unique; lia. }
        apply (Hz (Zdigits2 (m' + 1) + e1)); [| reflexivity].
        rewrite Hd1, fexp_eq. lia.
Qed.

(** [binary_round_aux] unfolded into its arithmetic: a first right
    shift to the target exponent keeping track of the lost bits, a
    rounding to nearest even, a second shift for the carry. *)
Lemma binary_round_aux_unfold (s : bool) (mx ex : Z) (lx : location) (x : R) :
  0 <= mx -> inbetween mx lx x ->
  let n1 := Z.max 0 (fexp prec emax (Zdigits2 mx + ex) - ex) in
  let e1 := ex + n1 in
  exists l' : location,
    inbetween (mx / 2 ^ n1) l' (x * bpow (- n1)) /\
    let m1 := round_nearest_even (mx / 2 ^ n1) l' in
    let n2 := Z.max 0 (fexp prec emax (Zdigits2 m1 + e1) - e1) in
    binary_round_aux prec emax s mx ex lx = make_float s (m1 / 2 ^ n2) (e1 + n2).
Proof.
  intros Hm H n1 e1.
  pose proof (shr_fexp_spec mx ex lx x Hm H) as (He & Hq & Hinv).
  fold n1 in He, Hq, Hinv.
  unfold binary_round_aux.
  destruct (shr_fexp prec emax mx ex lx) as [r1 e1'].
  cbn [fst snd] in He, Hq, Hinv. subst e1'. fold e1.
  exists (loc_of_shr_record r1). destruct Hinv as [Hr1 Hin].
  rewrite Hq in Hin, Hr1. split; [exact Hin |].
  cbv zeta. rewrite Hq.
  set (m1 := round_nearest_even _ _).
  set (n2 := Z.max 0 _).
  assert (Hm1 : 0 <= m1).
  { destruct (round_nearest_even_spec _ _ _ Hin) as ([E | E] & _);
      fold m1 in E; lia. }
  pose proof (shr_fexp_spec m1 e1 loc_Exact (IZR m1) Hm1 eq_refl)
    as (He2 & Hq2 & _).
  fold n2 in He2, Hq2.
  destruct (shr_fexp prec emax m1 e1 loc_Exact) as [r2 e2].
  cbn [fst snd] in He2, Hq2. subst e2. rewrite Hq2.
  reflexivity.
Qed.

End Rounding.

Section RoundingError.

Lemma F2R_shift (m e n : Z) :
  0 <= n -> F2R (m * 2 ^ n) e = F2R m (e + n).
Proof.
  intros Hn. unfold F2R.
  rewrite mult_IZR, <- bpow_IZR, (Z.add_comm e n), bpow_add by assumption.
  lra.
Qed.

(** The float [binary_round_aux] builds is the nearest one: it is
    within half a unit in the last place of the exact value. *)
Lemma binary_round_aux_correct (s : bool) (mx ex : Z) (lx : location) (x : R) :
  0 <= mx -> inbetween mx lx x ->
  exists m2 e2 : Z,
    binary_round_aux prec emax s mx ex lx = make_float s m2 e2 /\
    0 <= m2 /\
    e2 <= Z.max ex (fexp prec emax (Zdigits2 mx + ex)) + 1 /\
    (Rabs (F2R m2 e2 - x * bpow ex) <= bpow e2 / 2)%R.
Proof.
  intros Hm H.
  destruct (binary_round_aux_unfold s mx ex lx x Hm H) as (l' & Hin & Hr).
  cbv zeta in Hr.
  set (n1 := Z.max 0 (fexp prec emax (Zdigits2 mx + ex) - ex)) in *.
  set (e1 := ex + n1) in *.
  set (m' := mx / 2 ^ n1) in *.
  set (m1 := round_nearest_even m' l') in *.
  set (n2 := Z.max 0 (fexp prec emax (Zdigits2 m1 + e1) - e1)) in *.
  assert (Hp1 : 0 < 2 ^ n1) by (apply Z.pow_pos_nonneg; lia).
  assert (Hm' : 0 <= m') by (apply Z.div_pos; lia).
  destruct (round_nearest_even_spec m' l' _ Hin) as (Hm1 & Herr & _).
  fold m1 in Hm1, Herr.
  assert (Hf : fexp prec emax (Zdigits2 m' + e1) <= e1).
  { destruct (Z.eq_dec m' 0) as [E | NE].
    - rewrite E. cbn [Zdigits2]. unfold e1, n1. rewrite !fexp_eq. lia.
    - unfold m'. rewrite Zdigits2_div_pow2 by (fold m'; lia).
      unfold e1, n1. rewrite !fexp_eq. lia. }
  destruct (second_shift_exact m' m1 e1 Hm' Hm1 Hf) as (Hn2 & Hex).
  fold n2 in Hn2, Hex.
  assert (Hp2 : 0 < 2 ^ n2) by (apply Z.pow_pos_nonneg; lia).
  exists (m1 / 2 ^ n2), (e1 + n2). split; [exact Hr |]. split; [| split].
  - apply Z.div_pos; lia.
  - unfold e1, n1. lia.
  - rewrite <- F2R_shift, <- Hex by lia.
    unfold F2R.
    replace (x * bpow ex)%R with (x * bpow (- n1) * bpow e1)%R.
    + rewrite <- Rmult_minus_distr_r, Rabs_mult.
      rewrite (Rabs_pos_eq (bpow e1)) by (apply Rlt_le, bpow_gt_0).
      assert (bpow e1 <= bpow (e1 + n2))%R by (apply bpow_le; lia).
      pose proof (bpow_gt_0 e1).
      apply Rle_trans with (/ 2 * bpow e1)%R; [| lra].
      apply Rmult_le_compat_r; lra.
    + unfold e1. rewrite Rmult_assoc, <- bpow_add. f_equal. f_equal. lia.
Qed.

Lemma make_float_finite (s s' : bool) (m2 e2 : Z) (m : positive) (e : Z) :
  make_float s m2 e2 = S754_finite s' m e -> s' = s /\ m2 = Zpos m /\ e2 = e.
Proof.
  unfold make_float. destruct m2; try discriminate.
  destruct (e2 <=? emax - prec); try discriminate.
  intros E. injection E as -> -> ->. auto.
Qed.

(** Relative form, for a result with a full mantissa. *)
Lemma binary_round_aux_rel (s s' : bool) (mx ex : Z) (lx : location) (x : R)
    (m : positive) (e : Z) :
  0 <= mx -> inbetween mx lx x ->
  binary_round_aux prec emax s mx ex lx = S754_finite s' m e ->
  2 ^ 52 <= Zpos m ->
  s' = s /\
  (Rabs (F2R (Zpos m) e - x * bpow ex) <= bpow (-53) * F2R (Zpos m) e)%R.
Proof.
  intros Hm H Hr Hn.
  destruct (binary_round_aux_correct s mx ex lx x Hm H)
    as (m2 & e2 & Hr2 & _ & _ & Herr).
  rewrite Hr in Hr2. symmetry in Hr2.
  apply make_float_finite in Hr2 as (-> & -> & ->).
  split; [reflexivity |].
  eapply Rle_trans; [exact Herr |].
  unfold F2R. apply IZR_le in Hn.
  pose proof (bpow_gt_0 e).
  assert (E : (bpow (-53) * IZR (2 ^ 52) = / 2)%R).
  { rewrite <- bpow_IZR by lia. rewrite <- bpow_add. apply bpow_m1. }
  assert (0 < bpow (-53))%R by apply bpow_gt_0.
  apply Rle_trans with (bpow (-53) * (IZR (2 ^ 52) * bpow e))%R.
  - rewrite <- Rmult_assoc, E. lra.
  - apply Rmult_le_compat_l; [lra |].
    apply Rmult_le_compat_r; lra.
Qed.

End RoundingError.

Section Operations.

Lemma SF2R_finite (s : bool) (m : positive) (e : Z) :
  SF2R (S754_finite s m e) = signed s (F2R (Zpos m) e).
Proof.
  unfold SF2R, F2R, signed. destruct s; cbn [cond_Zopp].
  - rewrite opp_IZR. lra.
  - reflexivity.
Qed.

Lemma signed_mult (s1 s2 : bool) (a b : R) :
  (signed s1 a * signed s2 b)%R = signed (xorb s1 s2) (a * b).
Proof. destruct s1, s2; unfold signed; cbn [xorb]; lra. Qed.

Lemma signed_div (s1 s2 : bool) (a b : R) :
  b <> 0%R -> (signed s1 a / signed s2 b)%R = signed (xorb s1 s2) (a / b).
Proof.
  intros Hb. destruct s1, s2; unfold signed; cbn [xorb]; field; assumption.
Qed.

Lemma Rabs_signed_minus (s : bool) (a b : R) :
  Rabs (signed s a - signed s b) = Rabs (a - b).
Proof.
  destruct s; unfold signed; [| reflexivity].
  replace (- a - - b)%R with (- (a - b))%R by lra. apply Rabs_Ropp.
Qed.

Lemma Rabs_signed (s : bool) (a : R) : (0 <= a)%R -> Rabs (signed s a) = a.
Proof.
  intros Ha. destruct s; unfold signed.
  - rewrite Rabs_Ropp. apply Rabs_pos_eq, Ha.
  - apply Rabs_pos_eq, Ha.
Qed.

Lemma F2R_pos (m : positive) (e : Z) : (0 < F2R (Zpos m) e)%R.
Proof.
  unfold F2R. apply Rmult_lt_0_compat; [| apply bpow_gt_0].
  apply IZR_lt. lia.
Qed.

Lemma is_normal_bound (s : bool) (m : positive) (e : Z) :
  is_normal (S754_finite s m e) = true -> 2 ^ 52 <= Zpos m.
Proof.
  cbn [is_normal]. intros H. apply Z.eqb_eq in H.
  pose proof (Zdigits2_spec (Zpos m) eq_refl) as [Hlo _].
  cbn [Zdigits2] in Hlo. rewrite H in Hlo. exact Hlo.
Qed.

(** A rounded result with a full mantissa is within a relative
    [2^-53] of the exact value it was rounded from. *)
Lemma rounded_rel (s : bool) (mx ex : Z) (lx : location) (x : R) :
  0 <= mx -> inbetween mx lx x ->
  is_normal (binary_round_aux prec emax s mx ex lx) = true ->
  (Rabs (SF2R (binary_round_aux prec emax s mx ex lx) - signed s (x * bpow ex))
   <= bpow (-53) * Rabs (SF2R (binary_round_aux prec emax s mx ex lx)))%R.
Proof.
  intros Hm H Hn.
  destruct (binary_round_aux prec emax s mx ex lx) as [| | | s' m e] eqn:E;
    try discriminate Hn.
  pose proof (is_normal_bound _ _ _ Hn) as Hb.
  destruct (binary_round_aux_rel s s' mx ex lx x m e Hm H E Hb) as (-> & Hr).
  rewrite SF2R_finite, Rabs_signed_minus.
  rewrite Rabs_signed by (apply Rlt_le, F2R_pos).
  exact Hr.
Qed.

Lemma SFmul_error (x y : spec_float) :
  is_normal (SFmul prec emax x y) = true ->
  (Rabs (SF2R (SFmul prec emax x y) - SF2R x * SF2R y)
   <= bpow (-53) * Rabs (SF2R (SFmul prec emax x y)))%R.
Proof.
  destruct x as [sx | sx | | sx mx ex], y as [sy | sy | | sy my ey];
    try (intros H; discriminate H).
  cbn [SFmul]. intros Hn.
  rewrite !SF2R_finite, signed_mult.
  replace (F2R (Zpos mx) ex * F2R (Zpos my) ey)%R
    with (IZR (Zpos (mx * my)) * bpow (ex + ey))%R.
  - apply rounded_rel; [lia | reflexivity | exact Hn].
  - unfold F2R. rewrite Pos2Z.inj_mul, mult_IZR, bpow_add. lra.
Qed.

Lemma new_location_spec (n q r : Z) :
  0 < n -> 0 <= r < n ->
  inbetween q (new_location n r) (IZR q + IZR r / IZR n).
Proof.
  intros Hn Hr.
  assert (Hn' : (0 < IZR n)%R) by (apply IZR_lt; lia).
  set (t := (IZR r / IZR n)%R).
  assert (Ht : (t * IZR n = IZR r)%R) by (unfold t; field; lra).
  assert (Hr0 : (0 <= IZR r)%R) by (apply IZR_le; lia).
  assert (Hlt : forall c : R, (IZR r < c * IZR n)%R -> (t < c)%R).
  { intros c Hc. apply Rmult_lt_reg_r with (IZR n); lra. }
  assert (Hgt : forall c : R, (c * IZR n < IZR r)%R -> (c < t)%R).
  { intros c Hc. apply Rmult_lt_reg_r with (IZR n); lra. }
  assert (Heq : forall c : R, (c * IZR n = IZR r)%R -> t = c).
  { intros c Hc. apply Rmult_eq_reg_r with (IZR n); lra. }
  assert (Hrn : (IZR r < IZR n)%R) by (apply IZR_lt; lia).
  unfold new_location.
  destruct (Z.even n) eqn:En;
    unfold new_location_even, new_location_odd;
    destruct (Z.eqb_spec r 0) as [E0 | Hnz];
    try (rewrite (Heq 0%R) by (rewrite E0; lra); cbn [inbetween]; lra).
  - assert (Hr1 : (0 < IZR r)%R) by (apply IZR_lt; lia).
    destruct (Z.compare_spec (2 * r) n) as [E | E | E]; cbn [inbetween].
    + apply (f_equal IZR) in E. rewrite mult_IZR in E.
      rewrite (Heq (/ 2)%R) by lra. reflexivity.
    + apply IZR_lt in E. rewrite mult_IZR in E.
      assert (t < / 2)%R by (apply Hlt; lra).
      assert (0 < t)%R by (apply Hgt; lra). lra.
    + apply IZR_lt in E. rewrite mult_IZR in E.
      assert (/ 2 < t)%R by (apply Hgt; lra).
      assert (t < 1)%R by (apply Hlt; lra). lra.
  - assert (Hr1 : (0 < IZR r)%R) by (apply IZR_lt; lia).
    assert (Ho : 2 * r <> n).
    { intros E. rewrite <- E, Z.even_mul in En. discriminate En. }
    destruct (Z.compare_spec (2 * r + 1) n) as [E | E | E]; cbn [inbetween].
    + assert (E' : 2 * r < n) by lia.
      apply IZR_lt in E'. rewrite mult_IZR in E'.
      assert (t < / 2)%R by (apply Hlt; lra).
      assert (0 < t)%R by (apply Hgt; lra). lra.
    + assert (E' : 2 * r < n) by lia.
      apply IZR_lt in E'. rewrite mult_IZR in E'.
      assert (t < / 2)%R by (apply Hlt; lra).
      assert (0 < t)%R by (apply Hgt; lra). lra.
    + assert (E' : n < 2 * r) by lia.
      apply IZR_lt in E'. rewrite mult_IZR in E'.
      assert (/ 2 < t)%R by (apply Hgt; lra).
      assert (t < 1)%R by (apply Hlt; lra). lra.
Qed.

Lemma SFdiv_core_binary_spec (mx my : positive) (ex ey : Z) :
  let '(q, e', l) := SFdiv_core_binary prec emax (Zpos mx) ex (Zpos my) ey in
  0 <= q /\
  inbetween q l (F2R (Zpos mx) ex / F2R (Zpos my) ey * bpow (- e')).
Proof.
  unfold SFdiv_core_binary.
  set (e' := Z.min _ (ex - ey)).
  set (sh := ex - ey - e').
  assert (Hs : 0 <= sh) by (unfold sh, e'; lia).
  set (m' := match sh with Zpos _ => Z.shiftl (Zpos mx) sh | Z0 => Zpos mx
             | Zneg _ => 0 end).
  assert (Hm' : m' = Zpos mx * 2 ^ sh).
  { unfold m'. destruct sh as [| p | p]; try lia.
    apply Z.shiftl_mul_pow2. lia. }
  pose proof (Z_div_mod m' (Zpos my) eq_refl) as Hdm.
  destruct (Z.div_eucl m' (Zpos my)) as [q r]. destruct Hdm as [Hq Hr].
  assert (Hp : 0 < 2 ^ sh) by (apply Z.pow_pos_nonneg; lia).
  split.
  - assert (0 <= m') by lia. nia.
  - replace (F2R (Zpos mx) ex / F2R (Zpos my) ey * bpow (- e'))%R
      with (IZR q + IZR r / IZR (Zpos my))%R.
    + apply new_location_spec; lia.
    + assert (Hy : (0 < IZR (Zpos my))%R) by (apply IZR_lt; lia).
      assert (E : (IZR q + IZR r / IZR (Zpos my) = IZR m' / IZR (Zpos my))%R).
      { rewrite Hq, plus_IZR, mult_IZR. field. lra. }
      rewrite E, Hm', mult_IZR, <- bpow_IZR by lia.
      unfold F2R.
      assert (Ee : bpow ex = (bpow sh * bpow ey * bpow e')%R).
      { rewrite <- !bpow_add. f_equal. unfold sh. lia. }
      rewrite Ee, bpow_opp.
      pose proof (bpow_gt_0 ey). pose proof (bpow_gt_0 e').
      field. lra.
Qed.

Lemma SFdiv_error (x y : spec_float) :
  is_normal (SFdiv prec emax x y) = true ->
  (Rabs (SF2R (SFdiv prec emax x y) - SF2R x / SF2R y)
   <= bpow (-53) * Rabs (SF2R (SFdiv prec emax x y)))%R.
Proof.
  destruct x as [sx | sx | | sx mx ex], y as [sy | sy | | sy my ey];
    try (intros H; discriminate H).
  cbn [SFdiv]. intros Hn.
  pose proof (SFdiv_core_binary_spec mx my ex ey) as Hc.
  destruct (SFdiv_core_binary prec emax (Zpos mx) ex (Zpos my) ey)
    as [[q e'] l].
  destruct Hc as [Hq Hin].
  rewrite !SF2R_finite, signed_div
    by (apply Rgt_not_eq, Rlt_gt, F2R_pos).
  replace (F2R (Zpos mx) ex / F2R (Zpos my) ey)%R
    with (F2R (Zpos mx) ex / F2R (Zpos my) ey * bpow (- e') * bpow e')%R.
  - apply rounded_rel; assumption.
  - rewrite Rmult_assoc, <- bpow_add.
    replace (- e' + e') with 0 by lia. rewrite bpow_0. lra.
Qed.

End Operations.

Section Conversion.

Lemma inbetween_bounds (m : Z) (l : location) (x : R) :
  inbetween m l x -> (IZR m <= x < IZR m + 1)%R.
Proof. destruct l as [| [| |]]; cbn [inbetween]; lra. Qed.

(** Rounding a mantissa of at least 53 bits in the normal range: the
    result has a full mantissa, and its exponent is the canonical
    one, plus one exactly when rounding carries to the next power of
    two. *)
Lemma round_canonical (s : bool) (mz ez : Z) (lx : location) (x : R) :
  0 < mz -> inbetween mz lx x ->
  53 <= Zdigits2 mz -> -1074 <= Zdigits2 mz + ez - 53 ->
  exists m2 e2 : Z,
    binary_round_aux prec emax s mz ez lx = make_float s m2 e2 /\
    2 ^ 52 <= m2 < 2 ^ 53 /\
    (e2 = Zdigits2 mz + ez - 53 \/ e2 = Zdigits2 mz + ez - 52) /\
    (e2 = Zdigits2 mz + ez - 52 <->
     (bpow 53 - / 2 <= x * bpow (53 - Zdigits2 mz))%R).
Proof.
  intros Hz Hx Hd Hn. set (d := Zdigits2 mz) in *.
  assert (Hmz : 0 <= mz) by lia.
  destruct (binary_round_aux_unfold s mz ez lx x Hmz Hx)
    as (l' & Hin & Hr).
  cbv zeta in Hr. fold d in Hr, Hin.
  assert (En1 : Z.max 0 (fexp prec emax (d + ez) - ez) = d - 53).
  { rewrite fexp_eq. lia. }
  rewrite En1 in Hr, Hin.
  replace (ez + (d - 53)) with (d + ez - 53) in Hr by lia.
  set (e1 := d + ez - 53) in *.
  set (m' := mz / 2 ^ (d - 53)) in *.
  set (m1 := round_nearest_even m' l') in *.
  pose proof (Zdigits2_spec mz Hz) as [Hlo Hhi]. fold d in Hlo, Hhi.
  assert (Hp : 0 < 2 ^ (d - 53)) by (apply Z.pow_pos_nonneg; lia).
  assert (Hm' : 2 ^ 52 <= m' < 2 ^ 53).
  { unfold m'. split.
    - apply Z.div_le_lower_bound; [lia |].
      rewrite <- Z.pow_add_r by lia.
      replace (d - 53 + 52) with (d - 1) by lia. exact Hlo.
    - apply Z.div_lt_upper_bound; [lia |].
      rewrite <- Z.pow_add_r by lia.
      replace (d - 53 + 53) with d by lia. exact Hhi. }
  destruct (round_nearest_even_spec m' l' _ Hin)
    as (Hm1 & _ & Hdown & Hup & Htie).
  fold m1 in Hm1, Hdown, Hup, Htie.
  pose proof (inbetween_bounds _ _ _ Hin) as Hb.
  assert (E53 : bpow 53 = IZR (2 ^ 53)) by (apply bpow_IZR; lia).
  replace (- (d - 53)) with (53 - d) in Hb, Hdown, Hup, Htie by lia.
  set (x' := (x * bpow (53 - d))%R) in *.
  assert (Hm'R : (IZR m' <= IZR (2 ^ 53) - 1)%R).
  { rewrite <- minus_IZR. apply IZR_le. lia. }
  destruct (Z.eq_dec m1 (2 ^ 53)) as [Ec | Ec].
  - (* the rounding carries *)
    exists (2 ^ 52), (e1 + 1).
    assert (Ed : Zdigits2 m1 = 54).
    { rewrite Ec. reflexivity. }
    rewrite Ed, fexp_eq in Hr.
    replace (Z.max 0 (Z.max (54 + e1 - 53) (-1074) - e1)) with 1 in Hr
      by (unfold e1; lia).
    rewrite Ec in Hr. change (2 ^ 53 / 2 ^ 1) with (2 ^ 52) in Hr.
    split; [exact Hr |]. split; [lia |]. split; [right; unfold e1; lia |].
    split; [intros _ | intros _; unfold e1; lia].
    assert (Em' : m' = 2 ^ 53 - 1) by lia.
    destruct (Rlt_le_dec x' (IZR m' + / 2)) as [Hlt | Hge].
    + apply Hdown in Hlt. lia.
    + rewrite Em', minus_IZR in Hge. lra.
  - (* it does not *)
    assert (Hm1' : 2 ^ 52 <= m1 < 2 ^ 53) by lia.
    exists m1, e1.
    assert (Ed : Zdigits2 m1 = 53).
    { apply Zdigits2_unique; [lia |]. exact Hm1'. }
    rewrite Ed, fexp_eq in Hr.
    replace (Z.max 0 (Z.max (53 + e1 - 53) (-1074) - e1)) with 0 in Hr
      by (unfold e1; lia).
    change (2 ^ 0) with 1 in Hr. rewrite Z.div_1_r, Z.add_0_r in Hr.
    split; [exact Hr |]. split; [exact Hm1' |].
    split; [left; reflexivity |].
    split; [intros E; unfold e1 in E; lia |].
    intros Hx'. exfalso. apply Ec.
    assert (Em' : m' = 2 ^ 53 - 1).
    { assert (IZR (2 ^ 53) - 1 < IZR m' + 1)%R by lra.
      rewrite <- minus_IZR, <- plus_IZR in H. apply lt_IZR in H. lia. }
    destruct (Rle_lt_or_eq_dec _ _ Hx') as [Hgt | Heq].
    + rewrite Hup; [lia |]. rewrite Em', minus_IZR. lra.
    + rewrite Htie; [| rewrite Em', minus_IZR; lra].
      rewrite Em'. reflexivity.
Qed.

End Conversion.


Section Overflow.

Lemma int_float_limit_R :
  IZR int_float_limit = ((bpow 53 - / 2) * bpow 971)%R.
Proof.
  unfold int_float_limit.
  rewrite minus_IZR, <- !bpow_IZR by lia.
  rewrite <- bpow_m1, Rmult_minus_distr_r, <- !bpow_add. reflexivity.
Qed.

Lemma int_float_limit_bounds :
  (bpow 1023 < IZR int_float_limit < bpow 1024)%R.
Proof.
  rewrite !bpow_IZR by lia. split; apply IZR_lt; reflexivity.
Qed.

Lemma make_float_normal (s : bool) (m2 e2 : Z) :
  2 ^ 52 <= m2 < 2 ^ 53 ->
  (e2 <= 971 ->
   is_normal (make_float s m2 e2) = true /\
   is_infinite (make_float s m2 e2) = false) /\
  (971 < e2 -> make_float s m2 e2 = S754_infinity s).
Proof.
  intros Hm. destruct m2 as [| q | q]; try lia.
  unfold make_float. change (emax - prec) with 971.
  split; intros He.
  - rewrite (proj2 (Z.leb_le e2 971) He). cbn [is_normal is_infinite].
    split; [| reflexivity]. apply Z.eqb_eq.
    apply (Zdigits2_unique (Zpos q) 53); [lia | exact Hm].
  - rewrite (proj2 (Z.leb_gt e2 971) He). reflexivity.
Qed.

(** In the normal range rounding overflows exactly from
    [int_float_limit] on, the midpoint between the largest float and
    [2^1024]; below it the result is a normal float. *)
Lemma round_canonical_range (s : bool) (mz ez : Z) (lx : location) (x : R) :
  0 < mz -> inbetween mz lx x ->
  53 <= Zdigits2 mz -> -1074 <= Zdigits2 mz + ez - 53 ->
  ((IZR int_float_limit <= x * bpow ez)%R ->
   binary_round_aux prec emax s mz ez lx = S754_infinity s) /\
  ((x * bpow ez < IZR int_float_limit)%R ->
   is_normal (binary_round_aux prec emax s mz ez lx) = true /\
   is_infinite (binary_round_aux prec emax s mz ez lx) = false).
Proof.
  intros Hz Hx Hd Hn.
  destruct (round_canonical s mz ez lx x Hz Hx Hd Hn)
    as (m2 & e2 & -> & Hm2 & He2 & Hc).
  set (d := Zdigits2 mz) in *.
  destruct (make_float_normal s m2 e2 Hm2) as [Hfin Hinf].
  pose proof (Zdigits2_spec mz Hz) as [Hlo Hhi]. fold d in Hlo, Hhi.
  pose proof (inbetween_bounds _ _ _ Hx) as [Hx1 Hx2].
  pose proof int_float_limit_bounds as [T1 T2].
  pose proof (bpow_gt_0 ez) as Hez.
  assert (HV1 : (bpow (d + ez - 1) <= x * bpow ez)%R).
  { replace (d + ez - 1) with (d - 1 + ez) by lia.
    rewrite bpow_add, (bpow_IZR (d - 1)) by lia.
    apply Rmult_le_compat_r; [lra |].
    apply IZR_le in Hlo. lra. }
  assert (HV2 : (x * bpow ez < bpow (d + ez))%R).
  { rewrite bpow_add, (bpow_IZR d) by lia.
    apply Rmult_lt_compat_r; [lra |].
    assert (mz + 1 <= 2 ^ d) by lia.
    apply IZR_le in H. rewrite plus_IZR in H. lra. }
  assert (Hiff : e2 <= 971 <-> (x * bpow ez < IZR int_float_limit)%R).
  { destruct (Z_lt_le_dec (d + ez) 1024) as [Hs | Hl].
    - assert (bpow (d + ez) <= bpow 1023)%R by (apply bpow_le; lia).
      split; intros _; [lra | lia].
    - destruct (Z_lt_le_dec 1024 (d + ez)) as [Hb | Hb].
      + assert (bpow 1024 <= bpow (d + ez - 1))%R by (apply bpow_le; lia).
        split; intros; [lia | lra].
      + assert (E : (x * bpow (53 - d) = x * bpow ez * bpow (-971))%R).
        { rewrite Rmult_assoc, <- bpow_add. f_equal. f_equal. lia. }
        rewrite E, int_float_limit_R in *.
        assert (Hmul : forall a b : R,
                   (a <= b * bpow (-971) <-> a * bpow 971 <= b)%R).
        { intros a b. pose proof (bpow_gt_0 971). pose proof (bpow_gt_0 (-971)).
          assert (E1 : (bpow (-971) * bpow 971 = 1)%R).
          { rewrite <- bpow_add. reflexivity. }
          split; intros H1.
          - apply Rmult_le_compat_r with (r := bpow 971) in H1; [| lra].
            rewrite Rmult_assoc, E1 in H1. lra.
          - apply Rmult_le_compat_r with (r := bpow (-971)) in H1; [| lra].
            rewrite Rmult_assoc, (Rmult_comm (bpow 971)), E1 in H1. lra. }
        rewrite Hmul in Hc.
        split; intros H1.
        * apply Rnot_le_lt. intros H2. apply Hc in H2. lia.
        * destruct (Z_le_gt_dec e2 971) as [|Hgt]; [assumption |].
          assert (e2 = d + ez - 52) by lia. apply Hc in H. lra. }
  split; intros HV.
  - apply Hinf. destruct (Z_le_gt_dec e2 971) as [Hle |]; [| lia].
    apply Hiff in Hle. lra.
  - apply Hfin, Hiff, HV.
Qed.

End Overflow.

Section IntToFloat.

Lemma iter_xO (m d : positive) :
  Zpos (Pos.iter xO m d) = Zpos m * 2 ^ Zpos d.
Proof.
  induction d as [| d IH] using Pos.peano_ind.
  - cbn [Pos.iter]. lia.
  - rewrite Pos.iter_succ, Pos2Z.inj_succ, Z.pow_succ_r by lia.
    change (Zpos (Pos.iter xO m d)~0) with (2 * Zpos (Pos.iter xO m d)).
    rewrite IH. lia.
Qed.

Lemma shl_align_spec (m : positive) (e e' : Z) :
  let n := Z.max 0 (e - e') in
  Zpos (fst (shl_align m e e')) = Zpos m * 2 ^ n /\
  snd (shl_align m e e') = e - n.
Proof.
  unfold shl_align.
  destruct (e' - e) as [| p | p] eqn:E; cbn [fst snd].
  - replace (Z.max 0 (e - e')) with 0 by lia. lia.
  - replace (Z.max 0 (e - e')) with 0 by lia. lia.
  - replace (Z.max 0 (e - e')) with (Zpos p) by lia.
    rewrite iter_xO. lia.
Qed.

Lemma F2R_shl_align (m : positive) (e e' : Z) :
  F2R (Zpos (fst (shl_align m e e'))) (snd (shl_align m e e')) =
  F2R (Zpos m) e.
Proof.
  destruct (shl_align_spec m e e') as [-> ->].
  rewrite F2R_shift by lia. f_equal. lia.
Qed.

Lemma binary_round_error (s : bool) (m : positive) (e : Z) :
  is_normal (binary_round prec emax s m e) = true ->
  (Rabs (SF2R (binary_round prec emax s m e) - signed s (F2R (Zpos m) e))
   <= bpow (-53) * Rabs (SF2R (binary_round prec emax s m e)))%R.
Proof.
  unfold binary_round.
  pose proof (F2R_shl_align m e (fexp prec emax (Zpos (digits2_pos m) + e)))
    as Hv.
  destruct (shl_align m e _) as [mz ez]. cbn [fst snd] in Hv.
  intros Hn. rewrite <- Hv. unfold F2R.
  apply rounded_rel; [lia | reflexivity | exact Hn].
Qed.

(** Rounding a positive integer to a float. *)
Lemma binary_round_int (s : bool) (p : positive) :
  (int_float_limit <= Zpos p ->
   binary_round prec emax s p 0 = S754_infinity s) /\
  (Zpos p < int_float_limit ->
   is_normal (binary_round prec emax s p 0) = true /\
   is_infinite (binary_round prec emax s p 0) = false).
Proof.
  unfold binary_round.
  pose proof (Zdigits2_spec (Zpos p) eq_refl) as [Hlo Hhi].
  pose proof (Zdigits2_pos (Zpos p) eq_refl) as Hd0.
  cbn [Zdigits2] in Hlo, Hhi, Hd0.
  set (d := Zpos (digits2_pos p)) in *.
  pose proof (shl_align_spec p 0 (fexp prec emax (d + 0))) as [Hmz Hez].
  pose proof (F2R_shl_align p 0 (fexp prec emax (d + 0))) as Hv.
  destruct (shl_align p 0 _) as [mz ez]. cbn [fst snd] in Hmz, Hez, Hv.
  rewrite fexp_eq in Hmz, Hez.
  replace (Z.max 0 (0 - Z.max (d + 0 - 53) (-1074))) with (Z.max 0 (53 - d))
    in Hmz, Hez by lia.
  assert (Hp : 0 < 2 ^ Z.max 0 (53 - d)) by (apply Z.pow_pos_nonneg; lia).
  assert (Hdz : Zdigits2 (Zpos mz) = d + Z.max 0 (53 - d)).
  { apply Zdigits2_unique; [lia |]. rewrite Hmz. split.
    - replace (d + Z.max 0 (53 - d) - 1) with (d - 1 + Z.max 0 (53 - d)) by lia.
      rewrite Z.pow_add_r by lia. nia.
    - rewrite Z.pow_add_r by lia. nia. }
  assert (HV : (IZR (Zpos mz) * bpow ez)%R = IZR (Zpos p)).
  { unfold F2R in Hv. rewrite Hv, bpow_0. lra. }
  destruct (round_canonical_range s (Zpos mz) ez loc_Exact (IZR (Zpos mz)))
    as [Hinf Hfin]; [lia | reflexivity | lia | lia |].
  rewrite HV in Hinf, Hfin.
  split; intros H.
  - apply Hinf, IZR_le, H.
  - apply Hfin, IZR_lt, H.
Qed.

Lemma float_of_Z_range (z : Z) :
  (int_float_limit <= Z.abs z -> is_infinite (float_of_Z_exp z 0) = true) /\
  (Z.abs z < int_float_limit ->
   is_infinite (float_of_Z_exp z 0) = false /\
   (z <> 0 -> is_normal (float_of_Z_exp z 0) = true)).
Proof.
  destruct z as [| p | p]; unfold float_of_Z_exp; cbn [binary_normalize Z.abs].
  - split; intros H.
    + exfalso. revert H. apply Z.lt_nge. reflexivity.
    + split; [reflexivity | congruence].
  - destruct (binary_round_int false p) as [Hi Hf]. split; intros H.
    + rewrite Hi by assumption. reflexivity.
    + destruct (Hf H) as [Hn Hni]. auto.
  - destruct (binary_round_int true p) as [Hi Hf]. split; intros H.
    + rewrite Hi by assumption. reflexivity.
    + destruct (Hf H) as [Hn Hni]. auto.
Qed.

(** The conversion of an [int] operand fails exactly from
    [int_float_limit] on. *)
Lemma int_to_float_overflow (z : Z) :
  int_float_limit <= Z.abs z ->
  int_to_float z = Raise (OverflowError "int too large to convert to float").
Proof.
  intros H. unfold int_to_float.
  rewrite (proj1 (float_of_Z_range z) H). reflexivity.
Qed.

Lemma int_to_float_return (z : Z) :
  Z.abs z < int_float_limit ->
  int_to_float z = Return (float_of_Z_exp z 0).
Proof.
  intros H. unfold int_to_float.
  rewrite (proj1 (proj2 (float_of_Z_range z) H)). reflexivity.
Qed.

Lemma int_to_float_inv (z : Z) (f : spec_float) :
  int_to_float z = Return f ->
  Z.abs z < int_float_limit /\ f = float_of_Z_exp z 0.
Proof.
  intros H. destruct (Z_lt_le_dec (Z.abs z) int_float_limit) as [Hlt | Hge].
  - rewrite (int_to_float_return z Hlt) in H. injection H as <-. auto.
  - rewrite (int_to_float_overflow z Hge) in H. discriminate H.
Qed.

Lemma int_to_float_error (z : Z) (f : spec_float) :
  int_to_float z = Return f ->
  (Rabs (SF2R f - IZR z) <= bpow (-53) * Rabs (SF2R f))%R.
Proof.
  intros H. apply int_to_float_inv in H as [Hlt ->].
  destruct (proj2 (float_of_Z_range z) Hlt) as [_ Hn].
  destruct z as [| p | p].
  - cbn. rewrite Rminus_diag, Rabs_R0. lra.
  - pose proof (binary_round_error false p 0) as He.
    unfold F2R, signed in He. rewrite bpow_0, Rmult_1_r in He.
    apply He. apply Hn. discriminate.
  - pose proof (binary_round_error true p 0) as He.
    unfold F2R, signed in He. rewrite bpow_0, Rmult_1_r in He.
    change (IZR (Zneg p)) with (- IZR (Zpos p))%R.
    apply He. apply Hn. discriminate.
Qed.

End IntToFloat.

Section DivisionRange.

Lemma make_float_small (s : bool) (m2 e2 : Z) :
  0 <= m2 -> e2 <= 971 -> is_infinite (make_float s m2 e2) = false.
Proof.
  intros Hm He. unfold make_float. destruct m2 as [| q | q]; try lia.
  - reflexivity.
  - change (emax - prec) with 971.
    rewrite (proj2 (Z.leb_le e2 971) He). reflexivity.
Qed.

Lemma F2R_bounds (m : positive) (e : Z) :
  (bpow (Zdigits2 (Zpos m) + e - 1) <= F2R (Zpos m) e
   < bpow (Zdigits2 (Zpos m) + e))%R.
Proof.
  pose proof (Zdigits2_spec (Zpos m) eq_refl) as [Hlo Hhi].
  pose proof (Zdigits2_pos (Zpos m) eq_refl) as Hd.
  pose proof (bpow_gt_0 e).
  unfold F2R. split.
  - replace (Zdigits2 (Zpos m) + e - 1) with (Zdigits2 (Zpos m) - 1 + e) by lia.
    rewrite bpow_add, bpow_IZR by lia.
    apply Rmult_le_compat_r; [lra |]. apply IZR_le, Hlo.
  - rewrite bpow_add, (bpow_IZR (Zdigits2 (Zpos m))) by lia.
    apply Rmult_lt_compat_r; [lra |]. apply IZR_lt, Hhi.
Qed.

(** The quotient of two positive finite operands overflows exactly
    when the exact quotient reaches [int_float_limit]. *)
Lemma SFdiv_finite_range (sx sy : bool) (mx my : positive) (ex ey : Z) :
  is_infinite (SFdiv prec emax (S754_finite sx mx ex) (S754_finite sy my ey))
    = true <->
  (IZR int_float_limit <= F2R (Zpos mx) ex / F2R (Zpos my) ey)%R.
Proof.
  cbn [SFdiv].
  pose proof (SFdiv_core_binary_spec mx my ex ey) as Hc.
  unfold SFdiv_core_binary in *.
  set (D := Zdigits2 (Zpos mx) + ex - (Zdigits2 (Zpos my) + ey)) in *.
  set (e' := Z.min (fexp prec emax D) (ex - ey)) in *.
  destruct (Z.div_eucl _ (Zpos my)) as [q r].
  set (l := new_location (Zpos my) r) in *.
  destruct Hc as [Hq Hin].
  set (V := (F2R (Zpos mx) ex / F2R (Zpos my) ey)%R) in *.
  set (s := xorb sx sy).
  (* the exact quotient lies between two powers of two *)
  pose proof (F2R_bounds mx ex) as [X1 X2].
  pose proof (F2R_bounds my ey) as [Y1 Y2].
  pose proof (F2R_pos my ey) as Y0.
  pose proof (bpow_gt_0 (Zdigits2 (Zpos my) + ey - 1)) as Yb.
  assert (HV1 : (bpow (D - 1) < V)%R).
  { unfold V. apply Rmult_lt_reg_r with (F2R (Zpos my) ey); [exact Y0 |].
    unfold Rdiv. rewrite Rmult_assoc, Rinv_l, Rmult_1_r by lra.
    apply Rlt_le_trans with (bpow (D - 1) * bpow (Zdigits2 (Zpos my) + ey))%R.
    - apply Rmult_lt_compat_l; [apply bpow_gt_0 | exact Y2].
    - rewrite <- bpow_add.
      replace (D - 1 + (Zdigits2 (Zpos my) + ey))
        with (Zdigits2 (Zpos mx) + ex - 1) by (unfold D; lia).
      exact X1. }
  assert (HV2 : (V < bpow (D + 1))%R).
  { unfold V. apply Rmult_lt_reg_r with (F2R (Zpos my) ey); [exact Y0 |].
    unfold Rdiv. rewrite Rmult_assoc, Rinv_l, Rmult_1_r by lra.
    apply Rlt_le_trans
      with (bpow (D + 1) * bpow (Zdigits2 (Zpos my) + ey - 1))%R.
    - rewrite <- bpow_add.
      replace (D + 1 + (Zdigits2 (Zpos my) + ey - 1))
        with (Zdigits2 (Zpos mx) + ex) by (unfold D; lia).
      exact X2.
    - apply Rmult_le_compat_l; [apply Rlt_le, bpow_gt_0 | exact Y1]. }
  pose proof (inbetween_bounds _ _ _ Hin) as [Q1 Q2].
  pose proof int_float_limit_bounds as [T1 T2].
  assert (EV : (V * bpow (- e') * bpow e' = V)%R).
  { rewrite Rmult_assoc, <- bpow_add.
    replace (- e' + e') with 0 by lia. rewrite bpow_0. lra. }
  destruct (Z_le_gt_dec (-1074) (D - 53)) as [Hn | Hsub].
  - (* normal range: the scaled quotient has at least 53 bits *)
    assert (He' : e' <= D - 53) by (unfold e'; rewrite fexp_eq; lia).
    assert (Hk : 2 ^ (D - 1 - e') <= q).
    { assert (H : (bpow (D - 1 - e') < IZR q + 1)%R).
      { eapply Rlt_trans; [| exact Q2].
        replace (D - 1 - e') with (D - 1 + - e') by lia.
        rewrite bpow_add. apply Rmult_lt_compat_r; [apply bpow_gt_0 | exact HV1]. }
      rewrite bpow_IZR, <- plus_IZR in H by lia. apply lt_IZR in H. lia. }
    assert (Hq0 : 0 < q).
    { assert (0 < 2 ^ (D - 1 - e')) by (apply Z.pow_pos_nonneg; lia). lia. }
    assert (Hdq : D - e' <= Zdigits2 q).
    { pose proof (Zdigits2_spec q Hq0) as [_ Hhi].
      assert (Hlt : 2 ^ (D - 1 - e') < 2 ^ Zdigits2 q) by lia.
      apply Z.pow_lt_mono_r_iff in Hlt; [lia | lia |].
      apply Zdigits2_nonneg. }
    destruct (round_canonical_range s q e' l _ Hq0 Hin) as [Hinf Hfin];
      [lia | lia |].
    rewrite EV in Hinf, Hfin.
    split; intros H.
    + apply Rnot_lt_le. intros Hlt. apply Hfin in Hlt as [_ Hni].
      rewrite Hni in H. discriminate H.
    + rewrite (Hinf H). reflexivity.
  - (* far below the normal range: no overflow on either side *)
    assert (HVs : (V < IZR int_float_limit)%R).
    { assert (bpow (D + 1) <= bpow 1023)%R by (apply bpow_le; lia). lra. }
    destruct (binary_round_aux_correct s q e' l _ Hq Hin)
      as (m2 & e2 & Hr & Hm2 & He2 & _).
    assert (Hfe : fexp prec emax (Zdigits2 q + e') = -1074).
    { rewrite fexp_eq. destruct (Z.eq_dec q 0) as [-> | Hq0].
      - cbn [Zdigits2]. unfold e'. rewrite fexp_eq. lia.
      - pose proof (Zdigits2_spec q ltac:(lia)) as [Hlo _].
        assert (H : (IZR (2 ^ (Zdigits2 q - 1)) < bpow (D + 1 - e'))%R).
        { apply Rle_lt_trans with (IZR q); [apply IZR_le, Hlo |].
          eapply Rle_lt_trans; [exact Q1 |].
          replace (D + 1 - e') with (D + 1 + - e') by lia.
          rewrite bpow_add.
          apply Rmult_lt_compat_r; [apply bpow_gt_0 | exact HV2]. }
        assert (Hd : 0 < Zdigits2 q) by (apply Zdigits2_pos; lia).
        assert (Hlt : Zdigits2 q - 1 < D + 1 - e').
        { destruct (Z_lt_le_dec (Zdigits2 q - 1) (D + 1 - e')) as [|Hge];
            [assumption |].
          rewrite <- bpow_IZR in H by lia.
          apply bpow_le in Hge. lra. }
        lia. }
    assert (He' : e' <= -1074) by (unfold e'; rewrite fexp_eq; lia).
    rewrite Hr, make_float_small by lia.
    split; intros Hx; [discriminate Hx | lra].
Qed.

End DivisionRange.

Section IntTrueDivide.

Lemma SF2R_exact_of_Z (z : Z) : SF2R (exact_of_Z z) = IZR z.
Proof.
  destruct z as [| p | p]; cbn [exact_of_Z SF2R cond_Zopp]; unfold F2R;
    rewrite ?bpow_0; try lra.
  change (- Zpos p) with (Zneg p). lra.
Qed.

Lemma int_quotient_limit (x y : positive) :
  (IZR int_float_limit <= F2R (Zpos x) 0 / F2R (Zpos y) 0)%R <->
  int_float_limit * Zpos y <= Zpos x.
Proof.
  unfold F2R. rewrite bpow_0, !Rmult_1_r.
  assert (Hy : (0 < IZR (Zpos y))%R) by (apply IZR_lt; lia).
  split; intros H.
  - apply le_IZR. rewrite mult_IZR.
    apply Rmult_le_compat_r with (r := IZR (Zpos y)) in H; [| lra].
    unfold Rdiv in H. rewrite Rmult_assoc, Rinv_l, Rmult_1_r in H by lra.
    exact H.
  - apply IZR_le in H. rewrite mult_IZR in H.
    apply Rmult_le_reg_r with (IZR (Zpos y)); [exact Hy |].
    unfold Rdiv. rewrite Rmult_assoc, Rinv_l, Rmult_1_r by lra.
    exact H.
Qed.

(** [int / int] is out of the float range exactly when the exact
    quotient reaches [int_float_limit]. *)
Lemma int_quotient_infinite (x y : Z) :
  y <> 0 ->
  is_infinite (SFdiv prec emax (exact_of_Z x) (exact_of_Z y)) = true <->
  int_float_limit * Z.abs y <= Z.abs x.
Proof.
  intros Hy.
  assert (T0 : 0 < int_float_limit) by reflexivity.
  destruct y as [| q | q]; [congruence | |];
    destruct x as [| p | p]; cbn [exact_of_Z Z.abs];
    try (cbn [SFdiv is_infinite]; split; intros H; [discriminate H | nia]);
    rewrite SFdiv_finite_range; apply int_quotient_limit.
Qed.

Lemma int_true_divide_overflow (x y : Z) :
  y <> 0 -> int_float_limit * Z.abs y <= Z.abs x ->
  int_true_divide x y =
    Raise (OverflowError "integer division result too large for a float").
Proof.
  intros Hy H. unfold int_true_divide.
  rewrite (proj2 (Z.eqb_neq y 0) Hy).
  rewrite (proj2 (int_quotient_infinite x y Hy) H). reflexivity.
Qed.

Lemma int_true_divide_return (x y : Z) :
  y <> 0 -> Z.abs x < int_float_limit * Z.abs y ->
  int_true_divide x y = Return (SFdiv prec emax (exact_of_Z x) (exact_of_Z y)).
Proof.
  intros Hy H. unfold int_true_divide.
  rewrite (proj2 (Z.eqb_neq y 0) Hy).
  destruct (is_infinite _) eqn:E; [| reflexivity].
  apply (int_quotient_infinite x y Hy) in E. lia.
Qed.

End IntTrueDivide.

(** ** How the four functions run *)

Section Runs.

Lemma add_run (a b : value) (st : state) :
  add a b st = (binary_op Add a b, after st [EvBinOp Add a b]).
Proof.
  unfold add, call, bind, binary, ret, after. cbn [globals locals trace].
  destruct (binary_op Add a b); reflexivity.
Qed.

Lemma subtract_run (a b : value) (st : state) :
  subtract a b st = (binary_op Sub a b, after st [EvBinOp Sub a b]).
Proof.
  unfold subtract, call, bind, assign, binary, ret, after.
  cbn [globals locals trace].
  destruct (binary_op Sub a b); reflexivity.
Qed.

Lemma multiply_run (a b : value) (st : state) :
  multiply a b st = (binary_op Mult a b, after st [EvBinOp Mult a b]).
Proof.
  unfold multiply, call, bind, binary, ret, after. cbn [globals locals trace].
  destruct (binary_op Mult a b); reflexivity.
Qed.

Lemma divide_run (a b : value) (st : state) :
  divide a b st =
    if Py.equal b (PyInt 0)
    then (Raise (ValueError "Cannot divide by zero"),
          after st [EvCompare b (PyInt 0)])
    else (binary_op TrueDiv a b,
          after st [EvCompare b (PyInt 0); EvBinOp TrueDiv a b]).
Proof.
  unfold divide, call, bind, compare_eq, binary, ret, raise, after.
  cbn [globals locals trace].
  destruct (Py.equal b (PyInt 0)); [reflexivity |].
  destruct (binary_op TrueDiv a b); cbn [globals locals trace];
    rewrite <- app_assoc; reflexivity.
Qed.

End Runs.

Section OperatorResults.

Lemma int_to_float_eq (z : Z) :
  int_to_float z =
    if Z.abs z <? int_float_limit
    then Return (float_of_Z_exp z 0)
    else Raise (OverflowError "int too large to convert to float").
Proof.
  destruct (Z.ltb_spec (Z.abs z) int_float_limit) as [H | H].
  - apply int_to_float_return, H.
  - apply int_to_float_overflow, H.
Qed.

Lemma int_true_divide_eq (x y : Z) :
  y <> 0 ->
  int_true_divide x y =
    if Z.abs x <? int_float_limit * Z.abs y
    then Return (SFdiv prec emax (exact_of_Z x) (exact_of_Z y))
    else Raise (OverflowError
                  "integer division result too large for a float").
Proof.
  intros Hy.
  destruct (Z.ltb_spec (Z.abs x) (int_float_limit * Z.abs y)) as [H | H].
  - apply int_true_divide_return; assumption.
  - apply int_true_divide_overflow; assumption.
Qed.

(** Which values compare equal to the integer zero. *)
Lemma eq_zero_iff (b : value) :
  Py.equal b (PyInt 0) = true <->
  b = PyInt 0 \/ b = PyFloat (S754_zero false) \/ b = PyFloat (S754_zero true).
Proof.
  split.
  - destruct b as [z | [s | s | | s m e]]; cbn [Py.equal float_eq_int]; intros H;
      try discriminate H.
    + apply Z.eqb_eq in H. subst z. auto.
    + destruct s; auto.
    + exfalso.
      assert (Hn : cond_Zopp s (Zpos m) <> 0) by (destruct s; cbn; lia).
      set (n := cond_Zopp s (Zpos m)) in *.
      destruct (0 <=? e) eqn:He.
      * apply Z.eqb_eq in H. apply Z.leb_le in He.
        assert (0 < 2 ^ e) by (apply Z.pow_pos_nonneg; lia). nia.
      * apply andb_true_iff in H as [H1 H2].
        apply Z.eqb_eq in H1, H2. apply Z.leb_gt in He.
        assert (Hp : 0 < 2 ^ (- e)) by (apply Z.pow_pos_nonneg; lia).
        pose proof (Z.div_mod n (2 ^ (- e)) ltac:(lia)) as Hd.
        rewrite H1, H2 in Hd. lia.
  - intros [-> | [-> | ->]]; reflexivity.
Qed.

Lemma eq_zero_float (y : spec_float) :
  Py.equal (PyFloat y) (PyInt 0) = is_zero y.
Proof.
  destruct (Py.equal (PyFloat y) (PyInt 0)) eqn:E.
  - apply eq_zero_iff in E as [E | [E | E]]; try discriminate E;
      injection E as ->; reflexivity.
  - destruct y as [s | | |]; try reflexivity.
    rewrite (proj2 (eq_zero_iff (PyFloat (S754_zero s)))) in E;
      [discriminate E |]. destruct s; auto.
Qed.

Lemma binary_op_int_float (op : binop) (x : Z) (y : spec_float) :
  binary_op op (PyInt x) (PyFloat y) =
    if Z.abs x <? int_float_limit
    then rbind (float_op op (float_of_Z_exp x 0) y)
           (fun r => Return (PyFloat r))
    else Raise (OverflowError "int too large to convert to float").
Proof.
  cbn [binary_op]. rewrite int_to_float_eq.
  destruct (Z.abs x <? int_float_limit); reflexivity.
Qed.

Lemma binary_op_float_int (op : binop) (x : spec_float) (y : Z) :
  binary_op op (PyFloat x) (PyInt y) =
    if Z.abs y <? int_float_limit
    then rbind (float_op op x (float_of_Z_exp y 0))
           (fun r => Return (PyFloat r))
    else Raise (OverflowError "int too large to convert to float").
Proof.
  cbn [binary_op]. rewrite int_to_float_eq.
  destruct (Z.abs y <? int_float_limit); reflexivity.
Qed.

Lemma float_of_Z_not_zero (y : Z) :
  y <> 0 -> Z.abs y < int_float_limit ->
  is_zero (float_of_Z_exp y 0) = false.
Proof.
  intros Hy Hl.
  destruct (proj2 (float_of_Z_range y) Hl) as [_ Hn]. specialize (Hn Hy).
  destruct (float_of_Z_exp y 0); try discriminate Hn; reflexivity.
Qed.

(** [a / b] for a divisor that is not [== 0]. *)
Lemma true_divide_nonzero (a b : value) :
  Py.equal b (PyInt 0) = false ->
  binary_op TrueDiv a b =
    match a, b with
    | PyInt x, PyInt y =>
        if Z.abs x <? int_float_limit * Z.abs y
        then Return (PyFloat (SFdiv prec emax (exact_of_Z x) (exact_of_Z y)))
        else Raise (OverflowError
                      "integer division result too large for a float")
    | PyFloat x, PyFloat y => Return (PyFloat (SFdiv prec emax x y))
    | PyInt x, PyFloat y =>
        if Z.abs x <? int_float_limit
        then Return (PyFloat (SFdiv prec emax (float_of_Z_exp x 0) y))
        else Raise (OverflowError "int too large to convert to float")
    | PyFloat x, PyInt y =>
        if Z.abs y <? int_float_limit
        then Return (PyFloat (SFdiv prec emax x (float_of_Z_exp y 0)))
        else Raise (OverflowError "int too large to convert to float")
    end.
Proof.
  intros Hb. destruct a as [x | x], b as [y | y].
  - cbn [Py.equal] in Hb. apply Z.eqb_neq in Hb.
    cbn [binary_op int_op]. rewrite int_true_divide_eq by assumption.
    destruct (_ <? _); reflexivity.
  - rewrite eq_zero_float in Hb.
    rewrite binary_op_int_float. cbn [float_op]. rewrite Hb.
    destruct (_ <? _); reflexivity.
  - cbn [Py.equal] in Hb. assert (Hy : y <> 0) by (apply Z.eqb_neq, Hb).
    rewrite binary_op_float_int. cbn [float_op].
    destruct (Z.ltb_spec (Z.abs y) int_float_limit) as [Hl | Hl];
      [| reflexivity].
    rewrite float_of_Z_not_zero by assumption. reflexivity.
  - rewrite eq_zero_float in Hb. cbn [binary_op float_op]. rewrite Hb.
    reflexivity.
Qed.

End OperatorResults.

(** ** Accumulating a few roundings *)

Section Tolerance.

Lemma unit_roundoff_small : (0 < bpow (-53) <= / 16)%R.
Proof.
  split; [apply bpow_gt_0 |].
  replace (/ 16)%R with (bpow (-4)).
  - apply bpow_le. lia.
  - unfold bpow. simpl. f_equal. lra.
Qed.

Lemma bpow_m51 : bpow (-51) = (4 * bpow (-53))%R.
Proof.
  replace (-51) with (2 + -53) by lia. rewrite bpow_add. f_equal.
  unfold bpow. simpl. lra.
Qed.

Lemma Rabs_le_bounds (a b : R) : (Rabs a <= b)%R -> (- b <= a <= b)%R.
Proof. unfold Rabs. destruct (Rcase_abs a); lra. Qed.

(** A relative error read as a factor close to one. *)
Lemma rel_factor (u p e : R) :
  (0 <= u)%R -> (Rabs (p - e) <= u * Rabs p)%R ->
  exists t : R, (Rabs t <= u)%R /\ e = (p * (1 + t))%R.
Proof.
  intros Hu H. destruct (Req_dec p 0) as [-> | Hp].
  - exists 0%R. rewrite Rabs_R0 in *. split; [lra |].
    rewrite Rmult_0_r, Rminus_0_l, Rabs_Ropp in H.
    pose proof (Rabs_pos e). rewrite Rmult_0_l.
    destruct (Req_dec e 0) as [-> | He]; [reflexivity |].
    apply Rabs_pos_lt in He. lra.
  - exists ((e - p) / p)%R. split; [| field; exact Hp].
    unfold Rdiv. rewrite Rabs_mult, Rabs_inv.
    apply Rabs_pos_lt in Hp.
    apply Rmult_le_reg_r with (Rabs p); [exact Hp |].
    rewrite Rmult_assoc, Rinv_l, Rmult_1_r by lra.
    rewrite <- Rabs_Ropp. replace (- (e - p))%R with (p - e)%R by lra.
    exact H.
Qed.

Lemma tolerance_of_bounds (u P : R) :
  (0 <= u <= / 16)%R -> (1 - 3 * u <= P <= 1 + 13 / 4 * u)%R ->
  (Rabs (1 - P) <= 4 * u * P)%R.
Proof. intros Hu HP. apply Rabs_le. split; nra. Qed.

Lemma scaled_tolerance (c r P : R) :
  (0 <= P)%R -> (Rabs (1 - P) <= c * P)%R ->
  (Rabs (r - r * P) <= c * Rabs (r * P))%R.
Proof.
  intros HP H.
  replace (r - r * P)%R with (r * (1 - P))%R by lra.
  rewrite !Rabs_mult, (Rabs_pos_eq P HP).
  pose proof (Rabs_pos r).
  replace (c * (Rabs r * P))%R with (Rabs r * (c * P))%R by lra.
  apply Rmult_le_compat_l; assumption.
Qed.

Lemma within_three_roundings (r A t1 t2 t3 : R) :
  (Rabs t1 <= bpow (-53))%R -> (Rabs t2 <= bpow (-53))%R ->
  (Rabs t3 <= bpow (-53))%R ->
  A = (r * ((1 + t1) * (1 + t2) * (1 + t3)))%R ->
  (Rabs (r - A) <= bpow (-51) * Rabs A)%R.
Proof.
  intros H1 H2 H3 ->. rewrite bpow_m51.
  pose proof unit_roundoff_small as [U0 U1].
  set (u := bpow (-53)) in *.
  apply Rabs_le_bounds in H1, H2, H3.
  assert (Hab : ((1 - u) * (1 - u) <= (1 + t1) * (1 + t2)
                 <= (1 + u) * (1 + u))%R) by (split; nra).
  assert (HP : (1 - 3 * u <= (1 + t1) * (1 + t2) * (1 + t3)
                <= 1 + 13 / 4 * u)%R) by (split; nra).
  apply scaled_tolerance; [nra |].
  apply tolerance_of_bounds; [lra | exact HP].
Qed.

Lemma within_quotient_roundings (r A t1 t2 : R) :
  (Rabs t1 <= bpow (-53))%R -> (Rabs t2 <= bpow (-53))%R ->
  (A * (1 + t2) = r * (1 + t1))%R ->
  (Rabs (r - A) <= bpow (-51) * Rabs A)%R.
Proof.
  intros H1 H2 E. rewrite bpow_m51.
  pose proof unit_roundoff_small as [U0 U1].
  set (u := bpow (-53)) in *.
  apply Rabs_le_bounds in H1, H2.
  assert (EA : A = (r * ((1 + t1) / (1 + t2)))%R).
  { apply Rmult_eq_reg_r with (1 + t2)%R; [| lra].
    rewrite E. field. lra. }
  rewrite EA.
  set (P := ((1 + t1) / (1 + t2))%R).
  assert (EP : (P * (1 + t2) = 1 + t1)%R) by (unfold P; field; lra).
  assert (HP : (1 - 3 * u <= P <= 1 + 13 / 4 * u)%R) by (split; nra).
  apply scaled_tolerance; [nra |].
  apply tolerance_of_bounds; [lra | exact HP].
Qed.

Lemma SFdiv_normal_divisor (x y : spec_float) :
  is_normal (SFdiv prec emax x y) = true -> SF2R y <> 0%R.
Proof.
  destruct x as [sx | sx | | sx mx ex], y as [sy | sy | | sy my ey];
    try (intros H; discriminate H); intros _;
    rewrite SF2R_finite; pose proof (F2R_pos my ey);
    destruct sy; unfold signed; lra.
Qed.

Lemma Rabs_0_le_unit : (Rabs 0 <= bpow (-53))%R.
Proof. rewrite Rabs_R0. apply Rlt_le, bpow_gt_0. Qed.

(** The accuracy facts about the operators, as factors. *)
Lemma SFdiv_factor (x y : spec_float) :
  is_normal (SFdiv prec emax x y) = true ->
  exists t : R, (Rabs t <= bpow (-53))%R /\
    (SF2R x / SF2R y)%R = (SF2R (SFdiv prec emax x y) * (1 + t))%R.
Proof.
  intros H. apply rel_factor; [apply Rlt_le, bpow_gt_0 |].
  apply SFdiv_error, H.
Qed.

Lemma SFmul_factor (x y : spec_float) :
  is_normal (SFmul prec emax x y) = true ->
  exists t : R, (Rabs t <= bpow (-53))%R /\
    (SF2R x * SF2R y)%R = (SF2R (SFmul prec emax x y) * (1 + t))%R.
Proof.
  intros H. apply rel_factor; [apply Rlt_le, bpow_gt_0 |].
  apply SFmul_error, H.
Qed.

Lemma float_of_Z_factor (z : Z) :
  Z.abs z < int_float_limit ->
  exists t : R, (Rabs t <= bpow (-53))%R /\
    IZR z = (SF2R (float_of_Z_exp z 0) * (1 + t))%R.
Proof.
  intros H. apply rel_factor; [apply Rlt_le, bpow_gt_0 |].
  apply int_to_float_error, int_to_float_return, H.
Qed.

End Tolerance.

(** ** The properties of the module *)

Section Properties.

(** C1.  For every number [a], [divide(a, 0)] raises the module's
    single error (the specification's InvalidOperation, a
    [ValueError] in the code) with the message "Cannot divide by
    zero".  The globals and the caller's locals are as before, and the
    only operator evaluated is the comparison with zero: the division
    is not started. *)
Theorem divide_by_zero_raises (a : value) (st : state) :
  divide a (PyInt 0) st =
    (Raise (ValueError "Cannot divide by zero"),
     State (globals st) (locals st)
       (trace st ++ [EvCompare (PyInt 0) (PyInt 0)])).
Proof. rewrite divide_run. reflexivity. Qed.

(** C3, as stated, fails: with an integer too large for a float and a
    float, [add] raises [OverflowError]. *)
Lemma add_huge_int_and_float_raises :
  outcome (add (PyInt (10 ^ 400)) (PyFloat float_1) initial) =
    Raise (OverflowError "int too large to convert to float").
Proof. vm_compute. reflexivity. Qed.

(** C3, amended.  [add(a, b)] is [a + b]: the exact sum of two
    integers, the IEEE sum of two floats, and for an integer and a
    float the IEEE sum after the integer is converted to a float.  It
    fails in one case only, with [OverflowError]: an integer of
    magnitude [2^1024 - 2^970] or more next to a float.  It changes
    neither the globals nor the caller's locals. *)
Theorem add_returns_sum :
  (forall (x y : Z) (st : state),
      outcome (add (PyInt x) (PyInt y) st) = Return (PyInt (x + y))) /\
  (forall (x y : spec_float) (st : state),
      outcome (add (PyFloat x) (PyFloat y) st) =
        Return (PyFloat (SFadd prec emax x y))) /\
  (forall (x : Z) (y : spec_float) (st : state),
      outcome (add (PyInt x) (PyFloat y) st) =
        if Z.abs x <? int_float_limit
        then Return (PyFloat (SFadd prec emax (float_of_Z_exp x 0) y))
        else Raise (OverflowError "int too large to convert to float")) /\
  (forall (x : spec_float) (y : Z) (st : state),
      outcome (add (PyFloat x) (PyInt y) st) =
        if Z.abs y <? int_float_limit
        then Return (PyFloat (SFadd prec emax x (float_of_Z_exp y 0)))
        else Raise (OverflowError "int too large to convert to float")) /\
  (forall (a b : value) (st : state),
      globals (final (add a b st)) = globals st /\
      locals (final (add a b st)) = locals st).
Proof.
  repeat split; intros; rewrite ?add_run; cbn [outcome fst];
    rewrite ?binary_op_int_float, ?binary_op_float_int;
    try reflexivity;
    destruct (_ <? _); reflexivity.
Qed.

(** C4, as stated, fails: [subtract] raises [OverflowError] on an
    integer too large for a float and a float. *)
Lemma subtract_huge_int_and_float_raises :
  outcome (subtract (PyInt (10 ^ 400)) (PyFloat float_1) initial) =
    Raise (OverflowError "int too large to convert to float").
Proof. vm_compute. reflexivity. Qed.

(** C4, amended.  [subtract(a, b)] is [a - b], exact on integers and
    IEEE on floats, with the same single failure as [add].  The
    assignment to [unused_variable] changes nothing: the call behaves
    as the call of a body that only evaluates [a - b]. *)
Theorem subtract_returns_difference :
  (forall (x y : Z) (st : state),
      outcome (subtract (PyInt x) (PyInt y) st) = Return (PyInt (x - y))) /\
  (forall (x y : spec_float) (st : state),
      outcome (subtract (PyFloat x) (PyFloat y) st) =
        Return (PyFloat (SFsub prec emax x y))) /\
  (forall (x : Z) (y : spec_float) (st : state),
      outcome (subtract (PyInt x) (PyFloat y) st) =
        if Z.abs x <? int_float_limit
        then Return (PyFloat (SFsub prec emax (float_of_Z_exp x 0) y))
        else Raise (OverflowError "int too large to convert to float")) /\
  (forall (x : spec_float) (y : Z) (st : state),
      outcome (subtract (PyFloat x) (PyInt y) st) =
        if Z.abs y <? int_float_limit
        then Return (PyFloat (SFsub prec emax x (float_of_Z_exp y 0)))
        else Raise (OverflowError "int too large to convert to float")) /\
  (forall (a b : value) (st : state),
      subtract a b st = call (v <- binary Sub a b ;; ret v) st).
Proof.
  repeat split; intros; rewrite ?subtract_run; cbn [outcome fst];
    rewrite ?binary_op_int_float, ?binary_op_float_int;
    try reflexivity;
    try (destruct (_ <? _); reflexivity).
  unfold call, bind, binary, ret, after. cbn [globals locals trace].
  destruct (binary_op Sub a b); reflexivity.
Qed.

(** C5, as stated, fails: [multiply] raises [OverflowError] on an
    integer too large for a float and a float. *)
Lemma multiply_huge_int_and_float_raises :
  outcome (multiply (PyInt (10 ^ 400)) (PyFloat float_1) initial) =
    Raise (OverflowError "int too large to convert to float").
Proof. vm_compute. reflexivity. Qed.

(** C5, amended.  [multiply(a, b)] is [a * b], exact on integers and
    IEEE on floats, with the same single failure as [add], and without
    effect on the globals or the caller's locals. *)
Theorem multiply_returns_product :
  (forall (x y : Z) (st : state),
      outcome (multiply (PyInt x) (PyInt y) st) = Return (PyInt (x * y))) /\
  (forall (x y : spec_float) (st : state),
      outcome (multiply (PyFloat x) (PyFloat y) st) =
        Return (PyFloat (SFmul prec emax x y))) /\
  (forall (x : Z) (y : spec_float) (st : state),
      outcome (multiply (PyInt x) (PyFloat y) st) =
        if Z.abs x <? int_float_limit
        then Return (PyFloat (SFmul prec emax (float_of_Z_exp x 0) y))
        else Raise (OverflowError "int too large to convert to float")) /\
  (forall (x : spec_float) (y : Z) (st : state),
      outcome (multiply (PyFloat x) (PyInt y) st) =
        if Z.abs y <? int_float_limit
        then Return (PyFloat (SFmul prec emax x (float_of_Z_exp y 0)))
        else Raise (OverflowError "int too large to convert to float")) /\
  (forall (a b : value) (st : state),
      globals (final (multiply a b st)) = globals st /\
      locals (final (multiply a b st)) = locals st).
Proof.
  repeat split; intros; rewrite ?multiply_run; cbn [outcome fst];
    rewrite ?binary_op_int_float, ?binary_op_float_int;
    try reflexivity;
    destruct (_ <? _); reflexivity.
Qed.

(** C6, as stated with [==], fails: the sum of the two infinities of
    opposite sign is NaN in either order, and NaN is not [==] to
    itself. *)
Lemma add_commutes_not_on_nan :
  outcome (add (PyFloat float_inf) (PyFloat float_neg_inf) initial) =
    Return (PyFloat float_nan) /\
  outcome (add (PyFloat float_neg_inf) (PyFloat float_inf) initial) =
    Return (PyFloat float_nan) /\
  equal_results
    (outcome (add (PyFloat float_inf) (PyFloat float_neg_inf) initial))
    (outcome (add (PyFloat float_neg_inf) (PyFloat float_inf) initial)) =
    false.
Proof. repeat split. Qed.

(** C6, amended.  [add(a, b)] and [add(b, a)] have the same outcome,
    the same value or the same error; and [add(a, b) == add(b, a)]
    holds whenever [add(a, b)] returns a value that is not NaN. *)
Theorem add_commutative (a b : value) (st : state) :
  outcome (add a b st) = outcome (add b a st) /\
  (forall v : value,
      outcome (add a b st) = Return v -> is_nan_value v = false ->
      equal_results (outcome (add a b st)) (outcome (add b a st)) = true).
Proof.
  rewrite !add_run. cbn [outcome fst].
  rewrite (binary_op_Add_comm b a). split; [reflexivity |].
  intros v -> Hv. cbn [equal_results].
  apply eq_refl_not_nan. destruct v; [exact I | exact Hv].
Qed.

(** X1.  [multiply(a, b)] and [multiply(b, a)] have the same outcome,
    the same value or the same error. *)
Lemma multiply_commutative (a b : value) (st : state) :
  outcome (multiply a b st) = outcome (multiply b a st).
Proof.
  rewrite !multiply_run. cbn [outcome fst]. apply binary_op_Mult_comm.
Qed.

(** C7, as stated with [==], fails: the difference of two equal
    infinities is NaN, and NaN is not [==] to its negation. *)
Lemma subtract_antisymmetric_not_on_nan :
  outcome (subtract (PyFloat float_inf) (PyFloat float_inf) initial) =
    Return (PyFloat float_nan) /\
  equal_results
    (outcome (subtract (PyFloat float_inf) (PyFloat float_inf) initial))
    (neg_result
       (outcome (subtract (PyFloat float_inf) (PyFloat float_inf) initial))) =
    false.
Proof. repeat split. Qed.

(** C7, amended.  When [subtract(a, b)] raises, [subtract(b, a)]
    raises the same error.  When it returns a value that is not NaN,
    [subtract(a, b) == -subtract(b, a)] holds (the two sides can
    differ in the sign of a zero); when it returns NaN,
    [-subtract(b, a)] is NaN too. *)
Theorem subtract_antisymmetric (a b : value) (st : state) :
  match outcome (subtract a b st) with
  | Raise e => outcome (subtract b a st) = Raise e
  | Return v =>
      if is_nan_value v
      then neg_result (outcome (subtract b a st)) = Return v
      else equal_results (Return v)
             (neg_result (outcome (subtract b a st))) = true
  end.
Proof.
  rewrite !subtract_run. cbn [outcome fst].
  assert (HF : forall x y : spec_float,
             if is_nan (SFsub prec emax x y)
             then SFopp (SFsub prec emax y x) = SFsub prec emax x y
             else SFeqb (SFsub prec emax x y)
                    (SFopp (SFsub prec emax y x)) = true).
  { intros x y. destruct (SFsub_antisym x y) as [E | [Z1 Z2]].
    - rewrite <- E. destruct (is_nan _) eqn:N; [reflexivity |].
      apply SFeqb_refl, N.
    - destruct (SFsub prec emax x y); try discriminate Z1.
      destruct (SFsub prec emax y x); try discriminate Z2.
      reflexivity. }
  assert (HR : forall x y : spec_float,
             if is_nan (SFsub prec emax x y)
             then Return (PyFloat (SFopp (SFsub prec emax y x))) =
                  Return (PyFloat (SFsub prec emax x y))
             else SFeqb (SFsub prec emax x y)
                    (SFopp (SFsub prec emax y x)) = true).
  { intros x y. pose proof (HF x y) as H.
    destruct (is_nan _); [rewrite H; reflexivity | exact H]. }
  destruct a as [x | x], b as [y | y]; cbn [binary_op int_op].
  - cbn. apply Z.eqb_eq. lia.
  - destruct (int_to_float x) as [x' |]; cbn; [apply HR | reflexivity].
  - destruct (int_to_float y) as [y' |]; cbn; [apply HR | reflexivity].
  - cbn. apply HR.
Qed.

(** C9.  Each of the four functions is pure: the outcome of a call,
    returned value or error, is determined by the two arguments
    whatever the state of the caller, and the call leaves the globals
    and the caller's locals unchanged. *)
Theorem operations_referentially_transparent :
  pure_function add /\ pure_function subtract /\
  pure_function multiply /\ pure_function divide.
Proof.
  unfold pure_function. repeat split;
    rewrite ?add_run, ?subtract_run, ?multiply_run, ?divide_run;
    try reflexivity;
    destruct (Py.equal b (PyInt 0)); reflexivity.
Qed.

(** C10, as stated, fails: with a float operand, a quotient beyond
    the float range is returned as an infinity; [1e308 / 0.1] is
    [inf], and [0.1] is not zero. *)
Lemma divide_returns_infinity_on_overflow :
  Py.equal (PyFloat float_0_1) (PyInt 0) = false /\
  outcome (divide (PyFloat float_1e308) (PyFloat float_0_1) initial) =
    Return (PyFloat float_inf).
Proof. split; vm_compute; reflexivity. Qed.

(** C10, amended.  [divide] raises its error exactly when the
    divisor is [== 0], that is for the integer [0] and for the floats
    [0.0] and [-0.0]; it evaluates [a / b] only for a divisor that is
    not [== 0], so the division operator never raises
    [ZeroDivisionError].  Two integers never give an infinite value; a
    call with a float operand can (an infinite dividend, or a quotient
    beyond the float range). *)
Theorem divide_guard_exact (a b : value) (st : state) :
  (outcome (divide a b st) = Raise (ValueError "Cannot divide by zero") <->
   Py.equal b (PyInt 0) = true) /\
  (Py.equal b (PyInt 0) = true <->
   b = PyInt 0 \/ b = PyFloat (S754_zero false) \/
   b = PyFloat (S754_zero true)) /\
  (forall x y : value,
      In (EvBinOp TrueDiv x y) (trace (final (divide a b st))) ->
      In (EvBinOp TrueDiv x y) (trace st) \/
      (x = a /\ y = b /\ Py.equal b (PyInt 0) = false)) /\
  (forall msg : string,
      outcome (divide a b st) <> Raise (ZeroDivisionError msg)) /\
  (forall f : spec_float,
      outcome (divide a b st) = Return (PyFloat f) ->
      is_infinite f = true ->
      is_float a = true \/ is_float b = true).
Proof.
  rewrite divide_run.
  split; [| split; [apply eq_zero_iff |]].
  - destruct (Py.equal b (PyInt 0)) eqn:Hb; cbn [outcome fst].
    + split; reflexivity.
    + rewrite (true_divide_nonzero a b Hb).
      split; [| discriminate].
      destruct a, b; repeat destruct (_ <? _); discriminate.
  - destruct (Py.equal b (PyInt 0)) eqn:Hb; cbn [outcome final fst snd after trace].
    + repeat split.
      * intros x y H. apply in_app_or in H as [H | [H | []]]; [auto |].
        discriminate H.
      * discriminate.
      * discriminate.
    + rewrite (true_divide_nonzero a b Hb). repeat split.
      * intros x y H. apply in_app_or in H as [H | [H | [H | []]]]; [auto | |].
        -- discriminate H.
        -- injection H as <- <-. auto.
      * intros msg. destruct a, b; repeat destruct (_ <? _); discriminate.
      * intros f Hf Hi. destruct a as [x | x], b as [y | y]; cbn; auto.
        exfalso.
        cbn [Py.equal] in Hb. apply Z.eqb_neq in Hb.
        destruct (Z.ltb_spec (Z.abs x) (int_float_limit * Z.abs y))
          as [Hl | Hl]; [| discriminate Hf].
        injection Hf as <-.
        apply (int_quotient_infinite x y Hb) in Hi. lia.
Qed.

(** C2, as stated, fails: with a divisor that is not zero [divide]
    can still raise, here because the quotient of two integers is too
    large for a float. *)
Lemma divide_huge_quotient_raises :
  Py.equal (PyInt 1) (PyInt 0) = false /\
  outcome (divide (PyInt (10 ^ 400)) (PyInt 1) initial) =
    Raise (OverflowError "integer division result too large for a float").
Proof. split; vm_compute; reflexivity. Qed.

(** C2, amended.  For a divisor that is not [== 0], [divide(a, b)] is
    the true division [a / b].  A returned value is a float, also for
    two integers: the quotient of the two integers rounded once to the
    nearest float, or the IEEE quotient of the two floats, an integer
    operand next to a float being converted to a float first.  No
    [ValueError] and no [ZeroDivisionError] is raised; [OverflowError]
    is, exactly when the quotient of two integers reaches
    [2^1024 - 2^970] in magnitude, or when an integer operand next to
    a float does.  A returned normal float is within a relative
    [2^-51] of the exact quotient of the two arguments. *)
Theorem divide_nonzero_divisor (a b : value) (st : state) :
  Py.equal b (PyInt 0) = false ->
  outcome (divide a b st) =
    match a, b with
    | PyInt x, PyInt y =>
        if Z.abs x <? int_float_limit * Z.abs y
        then Return (PyFloat (SFdiv prec emax (exact_of_Z x) (exact_of_Z y)))
        else Raise (OverflowError
                      "integer division result too large for a float")
    | PyFloat x, PyFloat y => Return (PyFloat (SFdiv prec emax x y))
    | PyInt x, PyFloat y =>
        if Z.abs x <? int_float_limit
        then Return (PyFloat (SFdiv prec emax (float_of_Z_exp x 0) y))
        else Raise (OverflowError "int too large to convert to float")
    | PyFloat x, PyInt y =>
        if Z.abs y <? int_float_limit
        then Return (PyFloat (SFdiv prec emax x (float_of_Z_exp y 0)))
        else Raise (OverflowError "int too large to convert to float")
    end /\
  (forall q : spec_float,
      outcome (divide a b st) = Return (PyFloat q) ->
      is_normal q = true ->
      (Rabs (SF2R q - real_of a / real_of b)
       <= bpow (-51) * Rabs (real_of a / real_of b))%R).
Proof.
  intros Hb. rewrite divide_run, Hb. cbn [outcome fst].
  rewrite (true_divide_nonzero a b Hb). split; [reflexivity |].
  intros q Hq Hn.
  destruct a as [x | x], b as [y | y]; cbn [real_of].
  - destruct (_ <? _); [| discriminate Hq]. injection Hq as <-.
    destruct (SFdiv_factor _ _ Hn) as (t & Ht & E).
    rewrite !SF2R_exact_of_Z in E.
    apply within_three_roundings with t 0%R 0%R;
      auto using Rabs_0_le_unit.
    rewrite E. ring.
  - destruct (Z.ltb_spec (Z.abs x) int_float_limit) as [Hl | Hl];
      [| discriminate Hq].
    injection Hq as <-.
    destruct (SFdiv_factor _ _ Hn) as (t1 & Ht1 & E1).
    destruct (float_of_Z_factor x Hl) as (t0 & Ht0 & E0).
    apply within_three_roundings with t1 t0 0%R;
      auto using Rabs_0_le_unit.
    rewrite E0. unfold Rdiv in *.
    replace (SF2R (float_of_Z_exp x 0) * (1 + t0) * / SF2R y)%R
      with (SF2R (float_of_Z_exp x 0) * / SF2R y * (1 + t0))%R by ring.
    rewrite E1. ring.
  - destruct (Z.ltb_spec (Z.abs y) int_float_limit) as [Hl | Hl];
      [| discriminate Hq].
    injection Hq as <-.
    destruct (SFdiv_factor _ _ Hn) as (t1 & Ht1 & E1).
    destruct (float_of_Z_factor y Hl) as (t2 & Ht2 & E2).
    pose proof (SFdiv_normal_divisor _ _ Hn) as Hy.
    pose proof unit_roundoff_small as [U0 U1].
    apply Rabs_le_bounds in Ht2 as Ht2'.
    apply within_quotient_roundings with t1 t2; auto.
    rewrite <- E1, E2. field. split; [exact Hy | lra].
  - injection Hq as <-.
    destruct (SFdiv_factor _ _ Hn) as (t & Ht & E).
    apply within_three_roundings with t 0%R 0%R;
      auto using Rabs_0_le_unit.
    rewrite E. ring.
Qed.

Lemma divide_nonzero_divisor_witness :
  Py.equal (PyInt 2) (PyInt 0) = false /\
  outcome (divide (PyInt 7) (PyInt 2) initial) = Return (PyFloat float_3_5).
Proof.
  split; [reflexivity |].
  rewrite (proj1 (divide_nonzero_divisor (PyInt 7) (PyInt 2) initial eq_refl)).
  reflexivity.
Defined.

(** C8, as stated, fails: the quotient [1e308 / 0.1] overflows to
    [inf], and [inf * 0.1] is [inf], which is within no tolerance of
    [1e308]. *)
Lemma round_trip_lost_on_overflow :
  Py.equal (PyFloat float_0_1) (PyInt 0) = false /\
  outcome (divide (PyFloat float_1e308) (PyFloat float_0_1) initial) =
    Return (PyFloat float_inf) /\
  outcome (multiply (PyFloat float_inf) (PyFloat float_0_1) initial) =
    Return (PyFloat float_inf).
Proof. repeat split; vm_compute; reflexivity. Qed.

(** C8, amended.  When [divide(a, b)] returns a normal float [q] and
    [multiply(q, b)] returns a normal float [r] (no overflow to an
    infinity, no underflow below [2^-1022], no NaN, no
    [OverflowError]), [r] is within a relative [2^-51] of [a]. *)
Theorem divide_multiply_round_trip
    (a b : value) (q r : spec_float) (st st' : state) :
  outcome (divide a b st) = Return (PyFloat q) ->
  is_normal q = true ->
  outcome (multiply (PyFloat q) b st') = Return (PyFloat r) ->
  is_normal r = true ->
  (Rabs (SF2R r - real_of a) <= bpow (-51) * Rabs (real_of a))%R.
Proof.
  intros Hq Hnq Hr Hnr.
  rewrite divide_run in Hq.
  destruct (Py.equal b (PyInt 0)) eqn:Hb; [discriminate Hq |].
  cbn [outcome fst] in Hq. rewrite (true_divide_nonzero a b Hb) in Hq.
  rewrite multiply_run in Hr. cbn [outcome fst] in Hr.
  destruct b as [y | y].
  - (* the divisor is an integer, converted for the multiplication *)
    rewrite binary_op_float_int in Hr.
    destruct (Z.ltb_spec (Z.abs y) int_float_limit) as [Hl | Hl];
      [| discriminate Hr].
    cbn [float_op rbind] in Hr. injection Hr as <-.
    destruct (SFmul_factor _ _ Hnr) as (t3 & Ht3 & E3).
    destruct (float_of_Z_factor y Hl) as (t2 & Ht2 & E2).
    destruct a as [x | x]; cbn [real_of].
    + destruct (_ <? _); [| discriminate Hq]. injection Hq as <-.
      destruct (SFdiv_factor _ _ Hnq) as (t1 & Ht1 & E1).
      rewrite !SF2R_exact_of_Z in E1.
      assert (Hy : IZR y <> 0%R).
      { apply not_0_IZR. cbn [Py.equal] in Hb. apply Z.eqb_neq, Hb. }
      apply within_three_roundings with t3 t2 t1; auto.
      replace (IZR x) with (IZR x / IZR y * IZR y)%R by (field; exact Hy).
      rewrite E1, E2.
      replace (SF2R (SFdiv prec emax (exact_of_Z x) (exact_of_Z y)) *
               (1 + t1) * (SF2R (float_of_Z_exp y 0) * (1 + t2)))%R
        with (SF2R (SFdiv prec emax (exact_of_Z x) (exact_of_Z y)) *
              SF2R (float_of_Z_exp y 0) * ((1 + t2) * (1 + t1)))%R by ring.
      rewrite E3. ring.
    + injection Hq as <-.
      destruct (SFdiv_factor _ _ Hnq) as (t1 & Ht1 & E1).
      pose proof (SFdiv_normal_divisor _ _ Hnq) as Hy.
      apply within_three_roundings with t3 t1 0%R;
        auto using Rabs_0_le_unit.
      replace (SF2R x)
        with (SF2R x / SF2R (float_of_Z_exp y 0) *
              SF2R (float_of_Z_exp y 0))%R by (field; exact Hy).
      rewrite E1.
      replace (SF2R (SFdiv prec emax x (float_of_Z_exp y 0)) * (1 + t1) *
               SF2R (float_of_Z_exp y 0))%R
        with (SF2R (SFdiv prec emax x (float_of_Z_exp y 0)) *
              SF2R (float_of_Z_exp y 0) * (1 + t1))%R by ring.
      rewrite E3. ring.
  - (* the divisor is a float *)
    cbn [binary_op float_op rbind] in Hr. injection Hr as <-.
    destruct (SFmul_factor _ _ Hnr) as (t3 & Ht3 & E3).
    destruct a as [x | x]; cbn [real_of].
    + destruct (Z.ltb_spec (Z.abs x) int_float_limit) as [Hl | Hl];
        [| discriminate Hq].
      injection Hq as <-.
      destruct (SFdiv_factor _ _ Hnq) as (t1 & Ht1 & E1).
      destruct (float_of_Z_factor x Hl) as (t0 & Ht0 & E0).
      pose proof (SFdiv_normal_divisor _ _ Hnq) as Hy.
      apply within_three_roundings with t3 t1 t0; auto.
      rewrite E0.
      replace (SF2R (float_of_Z_exp x 0))
        with (SF2R (float_of_Z_exp x 0) / SF2R y * SF2R y)%R
        by (field; exact Hy).
      rewrite E1.
      replace (SF2R (SFdiv prec emax (float_of_Z_exp x 0) y) * (1 + t1) *
               SF2R y * (1 + t0))%R
        with (SF2R (SFdiv prec emax (float_of_Z_exp x 0) y) * SF2R y *
              ((1 + t1) * (1 + t0)))%R by ring.
      rewrite E3. ring.
    + injection Hq as <-.
      destruct (SFdiv_factor _ _ Hnq) as (t1 & Ht1 & E1).
      pose proof (SFdiv_normal_divisor _ _ Hnq) as Hy.
      apply within_three_roundings with t3 t1 0%R;
        auto using Rabs_0_le_unit.
      replace (SF2R x) with (SF2R x / SF2R y * SF2R y)%R
        by (field; exact Hy).
      rewrite E1.
      replace (SF2R (SFdiv prec emax x y) * (1 + t1) * SF2R y)%R
        with (SF2R (SFdiv prec emax x y) * SF2R y * (1 + t1))%R by ring.
      rewrite E3. ring.
Qed.

Lemma divide_multiply_round_trip_witness :
  outcome (divide (PyInt 10) (PyInt 4) initial) = Return (PyFloat float_2_5) /\
  is_normal float_2_5 = true /\
  outcome (multiply (PyFloat float_2_5) (PyInt 4) initial) =
    Return (PyFloat float_10) /\
  is_normal float_10 = true /\
  (Rabs (SF2R float_10 - real_of (PyInt 10))
   <= bpow (-51) * Rabs (real_of (PyInt 10)))%R.
Proof.
  assert (H1 : outcome (divide (PyInt 10) (PyInt 4) initial) =
               Return (PyFloat float_2_5)) by (vm_compute; reflexivity).
  assert (H2 : outcome (multiply (PyFloat float_2_5) (PyInt 4) initial) =
               Return (PyFloat float_10)) by (vm_compute; reflexivity).
  repeat split; try assumption.
  exact (divide_multiply_round_trip (PyInt 10) (PyInt 4)
           float_2_5 float_10 initial initial H1 eq_refl H2 eq_refl).
Defined.

End Properties.

(** ** Further properties of the four functions *)

Section ExactRounding.

(** Rounding loses nothing when the bits to shift out are zero. *)
Lemma binary_round_aux_exact (s : bool) (mx ex : Z) :
  0 < mx ->
  mx mod 2 ^ Z.max 0 (fexp prec emax (Zdigits2 mx + ex) - ex) = 0 ->
  binary_round_aux prec emax s mx ex loc_Exact =
    make_float s (mx / 2 ^ Z.max 0 (fexp prec emax (Zdigits2 mx + ex) - ex))
      (ex + Z.max 0 (fexp prec emax (Zdigits2 mx + ex) - ex)).
Proof.
  intros Hm Hdiv.
  destruct (binary_round_aux_unfold s mx ex loc_Exact (IZR mx) ltac:(lia) eq_refl)
    as (l' & Hin & Hr).
  cbv zeta in Hr.
  set (n1 := Z.max 0 (fexp prec emax (Zdigits2 mx + ex) - ex)) in *.
  set (m' := mx / 2 ^ n1) in *.
  assert (Hp : 0 < 2 ^ n1) by (apply Z.pow_pos_nonneg; lia).
  assert (Emx : mx = m' * 2 ^ n1).
  { pose proof (Z.div_mod mx (2 ^ n1) ltac:(lia)) as H.
    rewrite Hdiv in H. fold m' in H. lia. }
  assert (Hm' : 0 < m') by nia.
  assert (Ex : (IZR mx * bpow (- n1))%R = IZR m').
  { rewrite Emx at 1. rewrite mult_IZR, <- bpow_IZR by lia.
    rewrite Rmult_assoc, <- bpow_add.
    replace (n1 + - n1) with 0 by lia. rewrite bpow_0. lra. }
  rewrite Ex in Hin.
  destruct (round_nearest_even_spec m' l' _ Hin) as (_ & _ & Hdown & _).
  rewrite Hdown in Hr by lra.
  assert (Hd : Zdigits2 m' = Zdigits2 mx - n1).
  { apply Zdigits2_div_pow2; [lia | exact Hm']. }
  replace (Z.max 0 (fexp prec emax (Zdigits2 m' + (ex + n1)) - (ex + n1)))
    with 0 in Hr.
  - change (2 ^ 0) with 1 in Hr. rewrite Z.div_1_r, Z.add_0_r in Hr. exact Hr.
  - rewrite Hd. unfold n1. rewrite !fexp_eq. lia.
Qed.

End ExactRounding.

Section NeutralElements.

Lemma Zdigits2_mul_pow2 (m n : Z) :
  0 < m -> 0 <= n -> Zdigits2 (m * 2 ^ n) = Zdigits2 m + n.
Proof.
  intros Hm Hn.
  pose proof (Zdigits2_spec m Hm) as [Hlo Hhi].
  pose proof (Zdigits2_pos m Hm) as Hd.
  assert (Hp : 0 < 2 ^ n) by (apply Z.pow_pos_nonneg; lia).
  apply Zdigits2_unique; [lia |]. split.
  - replace (Zdigits2 m + n - 1) with (Zdigits2 m - 1 + n) by lia.
    rewrite Z.pow_add_r by lia. nia.
  - rewrite Z.pow_add_r by lia. nia.
Qed.

(** Multiplying a machine float by [1.0] gives the float back. *)
Lemma SFmul_one (x : spec_float) :
  valid_binary prec emax x = true -> SFmul prec emax x float_1 = x.
Proof.
  destruct x as [s | s | | s m e]; cbn [valid_binary]; intros Hv;
    try (destruct s; reflexivity); try reflexivity.
  unfold bounded, canonical_mantissa in Hv.
  apply andb_true_iff in Hv as [Hc He].
  apply Z.eqb_eq in Hc. pose proof He as Heb. apply Z.leb_le in He.
  unfold float_1. cbn [SFmul].
  rewrite Pos2Z.inj_mul. change (Zpos 4503599627370496) with (2 ^ 52).
  assert (Hd : Zdigits2 (Zpos m * 2 ^ 52) = Zpos (digits2_pos m) + 52).
  { rewrite Zdigits2_mul_pow2 by lia. reflexivity. }
  assert (Hn : Z.max 0 (fexp prec emax (Zdigits2 (Zpos m * 2 ^ 52) + (e + -52))
                        - (e + -52)) = 52).
  { rewrite Hd.
    replace (Zpos (digits2_pos m) + 52 + (e + -52))
      with (Zpos (digits2_pos m) + e) by lia.
    rewrite Hc. lia. }
  rewrite binary_round_aux_exact; rewrite ?Hn.
  - rewrite Z.div_mul by lia.
    replace (e + -52 + 52) with e by lia.
    unfold make_float. rewrite Heb, xorb_false_r. reflexivity.
  - lia.
  - apply Z.mod_mul. lia.
Qed.

End NeutralElements.

Section MoreOperatorFacts.

Lemma SFadd_zero_r (x : spec_float) :
  SFadd prec emax x (S754_zero false) =
    match x with
    | S754_zero true => S754_zero false
    | _ => x
    end.
Proof. destruct x as [[] | [] | |]; reflexivity. Qed.

Lemma SFsub_diag (x : spec_float) :
  is_finite_value (PyFloat x) = true ->
  SFsub prec emax x x = S754_zero false.
Proof.
  destruct x as [[] | [] | | s m e]; intros H; try discriminate H;
    try reflexivity.
  cbn [SFsub]. rewrite Z.sub_diag. reflexivity.
Qed.

(** [x - y] is [x + (-y)]. *)
Lemma SFsub_add_opp (x y : spec_float) :
  SFsub prec emax x y = SFadd prec emax x (SFopp y).
Proof.
  destruct x as [sx | sx | | sx mx ex], y as [sy | sy | | sy my ey];
    try reflexivity;
    destruct sx, sy; reflexivity.
Qed.

Lemma float_of_Z_opp (z : Z) :
  z <> 0 -> float_of_Z_exp (- z) 0 = SFopp (float_of_Z_exp z 0).
Proof.
  intros Hz. unfold float_of_Z_exp.
  destruct (binary_normalize_opp z 0) as [E | [E _]]; [exact E | contradiction].
Qed.

Lemma int_to_float_opp (z : Z) :
  z <> 0 ->
  int_to_float (- z) = rbind (int_to_float z) (fun f => Return (SFopp f)).
Proof.
  intros Hz. unfold int_to_float. rewrite float_of_Z_opp by assumption.
  destruct (float_of_Z_exp z 0); reflexivity.
Qed.

(** The quotient of a finite float by itself. *)
Lemma SFdiv_diag (s : bool) (m : positive) (e : Z) :
  SFdiv prec emax (S754_finite s m e) (S754_finite s m e) = float_1.
Proof.
  cbn [SFdiv]. unfold SFdiv_core_binary.
  replace (Zdigits2 (Zpos m) + e - (Zdigits2 (Zpos m) + e)) with 0 by lia.
  replace (e - e) with 0 by lia.
  change (Z.min (fexp prec emax 0) 0) with (-53).
  change (0 - -53) with 53. cbv iota.
  rewrite Z.shiftl_mul_pow2 by lia.
  assert (E : Z.div_eucl (Zpos m * 2 ^ 53) (Zpos m) = (2 ^ 53, 0)).
  { pose proof (Z_div_mod (Zpos m * 2 ^ 53) (Zpos m) eq_refl) as H.
    destruct (Z.div_eucl (Zpos m * 2 ^ 53) (Zpos m)) as [q r].
    destruct H as [H1 H2].
    assert (q = 2 ^ 53) by nia. subst q.
    f_equal. lia. }
  rewrite E. rewrite xorb_nilpotent.
  unfold new_location, new_location_even, new_location_odd.
  destruct (Z.even (Zpos m)); reflexivity.
Qed.

End MoreOperatorFacts.

Section Identities.

(** X2.  [multiply(a, 1)] returns [a] itself, for every integer and every
    machine float, the infinities and NaN included. *)
Theorem multiply_by_one (a : value) (st : state) :
  well_formed a = true -> outcome (multiply a (PyInt 1) st) = Return a.
Proof.
  intros Hv. rewrite multiply_run. cbn [outcome fst].
  destruct a as [x | x].
  - cbn. rewrite Z.mul_1_r. reflexivity.
  - cbn [binary_op]. change (int_to_float 1) with (Return float_1).
    cbn [rbind float_op]. rewrite SFmul_one by exact Hv. reflexivity.
Qed.

Lemma multiply_by_one_witness :
  well_formed (PyFloat float_2_5) = true /\
  outcome (multiply (PyFloat float_2_5) (PyInt 1) initial) =
    Return (PyFloat float_2_5).
Proof.
  split; [reflexivity |].
  exact (multiply_by_one (PyFloat float_2_5) initial eq_refl).
Defined.

(** X5.  [add(a, 0)] returns [a] itself, except that [-0.0 + 0] is [0.0]. *)
Theorem add_zero (a : value) (st : state) :
  outcome (add a (PyInt 0) st) =
    Return match a with
           | PyFloat (S754_zero true) => PyFloat (S754_zero false)
           | _ => a
           end.
Proof.
  rewrite add_run. cbn [outcome fst]. destruct a as [x | x].
  - cbn. rewrite Z.add_0_r. reflexivity.
  - cbn [binary_op]. change (int_to_float 0) with (Return (S754_zero false)).
    cbn [rbind float_op]. rewrite SFadd_zero_r.
    destruct x as [[] | | |]; reflexivity.
Qed.

(** X6.  [subtract(a, a)] is zero for every finite [a]: the integer [0] for
    an integer, [0.0] for a float. *)
Theorem subtract_self (a : value) (st : state) :
  is_finite_value a = true ->
  outcome (subtract a a st) =
    Return match a with
           | PyInt _ => PyInt 0
           | PyFloat _ => PyFloat float_zero
           end.
Proof.
  intros Hf. rewrite subtract_run. cbn [outcome fst]. destruct a as [x | x].
  - cbn. rewrite Z.sub_diag. reflexivity.
  - cbn [binary_op float_op rbind]. rewrite SFsub_diag by exact Hf.
    reflexivity.
Qed.

Lemma subtract_self_witness :
  is_finite_value (PyFloat float_0_1) = true /\
  outcome (subtract (PyFloat float_0_1) (PyFloat float_0_1) initial) =
    Return (PyFloat float_zero).
Proof.
  split; [reflexivity |].
  exact (subtract_self (PyFloat float_0_1) initial eq_refl).
Defined.

(** X3.  [multiply(a, 0) == 0] for every finite [a]. *)
Theorem multiply_by_zero (a : value) (st : state) :
  is_finite_value a = true ->
  equal_results (outcome (multiply a (PyInt 0) st)) (Return (PyInt 0)) = true.
Proof.
  intros Hf. rewrite multiply_run. cbn [outcome fst]. destruct a as [x | x].
  - cbn. rewrite Z.mul_0_r. reflexivity.
  - cbn [binary_op]. change (int_to_float 0) with (Return (S754_zero false)).
    destruct x as [s | s | | s m e]; try discriminate Hf; reflexivity.
Qed.

Lemma multiply_by_zero_witness :
  is_finite_value (PyInt 5) = true /\
  equal_results (outcome (multiply (PyInt 5) (PyInt 0) initial))
    (Return (PyInt 0)) = true.
Proof.
  split; [reflexivity |].
  exact (multiply_by_zero (PyInt 5) initial eq_refl).
Defined.

(** X8.  [divide(0, a) == 0] for every [a] that is neither zero nor NaN, an
    infinity or an integer beyond the float range included. *)
Theorem divide_zero_dividend (a : value) (st : state) :
  Py.equal a (PyInt 0) = false -> is_nan_value a = false ->
  equal_results (outcome (divide (PyInt 0) a st)) (Return (PyInt 0)) = true.
Proof.
  intros Hz Hn. rewrite divide_run, Hz. cbn [outcome fst].
  rewrite (true_divide_nonzero _ _ Hz). destruct a as [y | y].
  - assert (Hy : y <> 0) by (apply Z.eqb_neq, Hz).
    assert (T0 : 0 < int_float_limit) by reflexivity.
    rewrite (proj2 (Z.ltb_lt _ _)) by (cbn [Z.abs]; nia).
    destruct y; [congruence | reflexivity | reflexivity].
  - change (Z.abs 0 <? int_float_limit) with true. cbv iota.
    rewrite eq_zero_float in Hz.
    change (float_of_Z_exp 0 0) with (S754_zero false).
    destruct y as [s | s | | s m e]; try discriminate; reflexivity.
Qed.

Lemma divide_zero_dividend_witness :
  Py.equal (PyInt 5) (PyInt 0) = false /\
  is_nan_value (PyInt 5) = false /\
  equal_results (outcome (divide (PyInt 0) (PyInt 5) initial))
    (Return (PyInt 0)) = true.
Proof.
  split; [reflexivity |]. split; [reflexivity |].
  exact (divide_zero_dividend (PyInt 5) initial eq_refl eq_refl).
Defined.

(** X9.  [divide(a, a)] is exactly [1.0] for every finite [a] other than
    zero, integer or float. *)
Theorem divide_self (a : value) (st : state) :
  is_finite_nonzero a = true ->
  outcome (divide a a st) = Return (PyFloat float_1).
Proof.
  intros Hf.
  assert (Hz : Py.equal a (PyInt 0) = false).
  { destruct a as [x | x].
    - cbn in *. destruct (x =? 0); [discriminate Hf | reflexivity].
    - rewrite eq_zero_float. destruct x; try discriminate Hf; reflexivity. }
  rewrite divide_run, Hz. cbn [outcome fst]. destruct a as [x | x].
  - cbn [binary_op int_op]. unfold int_true_divide.
    cbn [Py.equal] in Hz. rewrite Hz.
    destruct x as [| p | p]; [discriminate Hz | |];
      cbn [exact_of_Z]; rewrite SFdiv_diag; reflexivity.
  - destruct x as [s | s | | s m e]; try discriminate Hf.
    cbn [binary_op float_op rbind is_zero]. rewrite SFdiv_diag. reflexivity.
Qed.

Lemma divide_self_witness :
  is_finite_nonzero (PyInt 7) = true /\
  outcome (divide (PyInt 7) (PyInt 7) initial) = Return (PyFloat float_1).
Proof.
  split; [reflexivity |].
  exact (divide_self (PyInt 7) initial eq_refl).
Defined.

(** X7.  [subtract(a, b)] has the outcome of [add(a, -b)], value or error,
    for every [b] other than the integer [0]. *)
Theorem subtract_is_add_of_negation (a b : value) (st : state) :
  is_int_zero b = false ->
  outcome (subtract a b st) = outcome (add a (neg b) st).
Proof.
  intros Hb. rewrite subtract_run, add_run. cbn [outcome fst].
  destruct a as [x | x], b as [y | y]; cbn [neg binary_op int_op float_op rbind].
  - replace (x + - y) with (x - y) by lia. reflexivity.
  - destruct (int_to_float x); cbn [rbind]; [| reflexivity].
    rewrite SFsub_add_opp. reflexivity.
  - assert (Hy : y <> 0) by (intros ->; discriminate Hb).
    rewrite int_to_float_opp by exact Hy.
    destruct (int_to_float y); cbn [rbind]; [| reflexivity].
    rewrite SFsub_add_opp. reflexivity.
  - rewrite SFsub_add_opp. reflexivity.
Qed.

Lemma subtract_is_add_of_negation_witness :
  is_int_zero (PyInt 3) = false /\
  outcome (subtract (PyFloat float_2_5) (PyInt 3) initial) =
    outcome (add (PyFloat float_2_5) (neg (PyInt 3)) initial).
Proof.
  split; [reflexivity |].
  exact (subtract_is_add_of_negation (PyFloat float_2_5) (PyInt 3) initial
           eq_refl).
Defined.

End Identities.

Section ExactQuotient.

(** The quotient of two integers of which the second divides the
    first, when it has at most 53 bits: a float that denotes it. *)
Lemma SFdiv_exact_quotient (sa sb : bool) (pk pb : positive) :
  Zpos pk < 2 ^ 53 ->
  exists (m : positive) (e : Z),
    SFdiv prec emax (S754_finite sa (pk * pb) 0) (S754_finite sb pb 0) =
      S754_finite (xorb sa sb) m e /\
    e <= 0 /\ Zpos m = Zpos pk * 2 ^ (- e).
Proof.
  intros Hk. cbn [SFdiv]. unfold SFdiv_core_binary.
  set (e' := Z.min _ (0 - 0)).
  assert (He' : e' <= 0) by (unfold e'; lia).
  set (sh := 0 - 0 - e').
  assert (Hsh : sh = - e') by (unfold sh; lia).
  set (m' := match sh with Zpos _ => Z.shiftl (Zpos (pk * pb)) sh
             | Z0 => Zpos (pk * pb) | Zneg _ => 0 end).
  assert (Hp : 0 < 2 ^ sh) by (apply Z.pow_pos_nonneg; lia).
  assert (Hm' : m' = Zpos pk * 2 ^ sh * Zpos pb).
  { unfold m'. destruct sh as [| p | p] eqn:E; try lia.
    rewrite Z.shiftl_mul_pow2 by lia. lia. }
  assert (E : Z.div_eucl m' (Zpos pb) = (Zpos pk * 2 ^ sh, 0)).
  { pose proof (Z_div_mod m' (Zpos pb) eq_refl) as H.
    destruct (Z.div_eucl m' (Zpos pb)) as [q r]. destruct H as [H1 H2].
    assert (q = Zpos pk * 2 ^ sh) by nia. subst q. f_equal. lia. }
  rewrite E.
  assert (El : new_location (Zpos pb) 0 = loc_Exact).
  { unfold new_location, new_location_even, new_location_odd.
    destruct (Z.even (Zpos pb)); reflexivity. }
  rewrite El.
  set (mx := Zpos pk * 2 ^ sh).
  assert (Hmx : 0 < mx) by (unfold mx; nia).
  pose proof (Zdigits2_spec (Zpos pk) eq_refl) as [Hlo Hhi].
  pose proof (Zdigits2_pos (Zpos pk) eq_refl) as Hd0.
  assert (Hdk : Zdigits2 (Zpos pk) <= 53).
  { destruct (Z_le_gt_dec (Zdigits2 (Zpos pk)) 53) as [| Hgt]; [assumption |].
    assert (2 ^ 53 <= 2 ^ (Zdigits2 (Zpos pk) - 1))
      by (apply Z.pow_le_mono_r; lia).
    lia. }
  assert (Hd : Zdigits2 mx = Zdigits2 (Zpos pk) + sh).
  { unfold mx. apply Zdigits2_mul_pow2; lia. }
  set (n1 := Z.max 0 (fexp prec emax (Zdigits2 mx + e') - e')).
  assert (Hn1 : 0 <= n1 <= sh).
  { unfold n1. rewrite Hd, fexp_eq. lia. }
  assert (E2 : 2 ^ sh = 2 ^ (sh - n1) * 2 ^ n1).
  { rewrite <- Z.pow_add_r by lia. f_equal. lia. }
  rewrite binary_round_aux_exact; fold n1.
  - assert (Eq : mx / 2 ^ n1 = Zpos pk * 2 ^ (sh - n1)).
    { unfold mx. rewrite E2, Z.mul_assoc, Z.div_mul; [reflexivity |].
      assert (0 < 2 ^ n1) by (apply Z.pow_pos_nonneg; lia). lia. }
    rewrite Eq.
    assert (Hq : 0 < Zpos pk * 2 ^ (sh - n1)).
    { assert (0 < 2 ^ (sh - n1)) by (apply Z.pow_pos_nonneg; lia). lia. }
    destruct (Zpos pk * 2 ^ (sh - n1)) as [| m | m] eqn:Em; try lia.
    exists m, (e' + n1). unfold make_float.
    rewrite (proj2 (Z.leb_le (e' + n1) (emax - prec)))
      by (change (emax - prec) with 971; lia).
    split; [reflexivity |]. split; [lia |].
    replace (- (e' + n1)) with (sh - n1) by lia. symmetry. exact Em.
  - exact Hmx.
  - unfold mx. rewrite E2, Z.mul_assoc. apply Z.mod_mul.
    assert (0 < 2 ^ n1) by (apply Z.pow_pos_nonneg; lia). lia.
Qed.

(** A float that denotes an integer is [==] to it. *)
Lemma float_eq_int_exact (s : bool) (m pk : positive) (e : Z) :
  e <= 0 -> Zpos m = Zpos pk * 2 ^ (- e) ->
  float_eq_int (S754_finite s m e) (cond_Zopp s (Zpos pk)) = true.
Proof.
  intros He Hm. cbn [float_eq_int].
  assert (Hp : 0 < 2 ^ (- e)) by (apply Z.pow_pos_nonneg; lia).
  assert (En : cond_Zopp s (Zpos m) = cond_Zopp s (Zpos pk) * 2 ^ (- e)).
  { destruct s; cbn [cond_Zopp]; lia. }
  rewrite En.
  destruct (Z.leb_spec 0 e) as [H0 | H0].
  - replace e with 0 by lia. cbn. apply Z.eqb_eq. lia.
  - rewrite Z.mod_mul, Z.div_mul by lia. cbn [andb].
    rewrite !Z.eqb_refl. reflexivity.
Qed.

End ExactQuotient.

Section ExactDivision.

(** X10.  When [b] divides [a] and the quotient [k] fits the 53 bits of a
    float mantissa, [divide(a, b) == k]: the division of integers is
    exact wherever it can be. *)
Theorem divide_exact_quotient (k b : Z) (st : state) :
  (b =? 0) = false -> Z.abs k < 2 ^ 53 ->
  equal_results (outcome (divide (PyInt (k * b)) (PyInt b) st))
    (Return (PyInt k)) = true.
Proof.
  intros Hb Hk. rewrite divide_run. cbn [Py.equal]. rewrite Hb.
  cbn [outcome fst binary_op int_op]. unfold int_true_divide. rewrite Hb.
  assert (Hgen : forall (sa sb : bool) (pk pb : positive),
             Zpos pk < 2 ^ 53 ->
             equal_results
               (rbind
                  (let q := SFdiv prec emax (S754_finite sa (pk * pb) 0)
                              (S754_finite sb pb 0) in
                   if is_infinite q
                   then Raise (OverflowError
                          "integer division result too large for a float")
                   else Return q)
                  (fun q => Return (PyFloat q)))
               (Return (PyInt (cond_Zopp (xorb sa sb) (Zpos pk)))) = true).
  { intros sa sb pk pb Hpk.
    destruct (SFdiv_exact_quotient sa sb pk pb Hpk) as (m & e & -> & He & Hm).
    cbn [is_infinite rbind equal_results Py.equal].
    apply float_eq_int_exact; assumption. }
  destruct b as [| pb | pb]; [discriminate Hb | |];
    destruct k as [| pk | pk]; cbn [Z.mul exact_of_Z Z.abs] in *;
    try reflexivity.
  - apply (Hgen false false pk pb Hk).
  - apply (Hgen true false pk pb Hk).
  - apply (Hgen true true pk pb Hk).
  - apply (Hgen false true pk pb Hk).
Qed.

Lemma divide_exact_quotient_witness :
  (2 =? 0) = false /\ Z.abs 5 < 2 ^ 53 /\
  equal_results (outcome (divide (PyInt (5 * 2)) (PyInt 2) initial))
    (Return (PyInt 5)) = true.
Proof.
  split; [reflexivity |]. split; [reflexivity |].
  exact (divide_exact_quotient 5 2 initial eq_refl eq_refl).
Defined.

End ExactDivision.

Section Negations.

Lemma SFmul_opp_opp (x y : spec_float) :
  SFmul prec emax (SFopp x) (SFopp y) = SFmul prec emax x y.
Proof.
  destruct x as [sx | sx | | sx mx ex], y as [sy | sy | | sy my ey];
    try reflexivity; destruct sx, sy; reflexivity.
Qed.

Lemma SFdiv_opp_opp (x y : spec_float) :
  SFdiv prec emax (SFopp x) (SFopp y) = SFdiv prec emax x y.
Proof.
  destruct x as [sx | sx | | sx mx ex], y as [sy | sy | | sy my ey];
    try reflexivity; destruct sx, sy; reflexivity.
Qed.

Lemma is_zero_opp (y : spec_float) : is_zero (SFopp y) = is_zero y.
Proof. destruct y; reflexivity. Qed.

Lemma exact_of_Z_opp (z : Z) : exact_of_Z (- z) = SFopp (exact_of_Z z) \/ z = 0.
Proof. destruct z; auto. Qed.

Lemma equal_zero_neg (b : value) :
  Py.equal (neg b) (PyInt 0) = Py.equal b (PyInt 0).
Proof.
  destruct b as [y | y]; cbn [neg].
  - cbn [Py.equal]. destruct y; reflexivity.
  - rewrite !eq_zero_float. apply is_zero_opp.
Qed.

(** X4.  [multiply(-a, -b)] has the outcome of [multiply(a, b)], value or
    error, when neither argument is the integer [0]. *)
Theorem multiply_of_negations (a b : value) (st : state) :
  is_int_zero a = false -> is_int_zero b = false ->
  outcome (multiply (neg a) (neg b) st) = outcome (multiply a b st).
Proof.
  intros Ha Hb. rewrite !multiply_run. cbn [outcome fst].
  destruct a as [x | x], b as [y | y]; cbn [neg binary_op int_op float_op].
  - f_equal. f_equal. lia.
  - assert (Hx : x <> 0) by (intros ->; discriminate Ha).
    rewrite int_to_float_opp by exact Hx.
    destruct (int_to_float x); cbn [rbind]; [| reflexivity].
    rewrite SFmul_opp_opp. reflexivity.
  - assert (Hy : y <> 0) by (intros ->; discriminate Hb).
    rewrite int_to_float_opp by exact Hy.
    destruct (int_to_float y); cbn [rbind]; [| reflexivity].
    rewrite SFmul_opp_opp. reflexivity.
  - cbn [rbind]. rewrite SFmul_opp_opp. reflexivity.
Qed.

Lemma multiply_of_negations_witness :
  is_int_zero (PyInt (-3)) = false /\ is_int_zero (PyInt (-4)) = false /\
  outcome (multiply (neg (PyInt (-3))) (neg (PyInt (-4))) initial) =
    outcome (multiply (PyInt (-3)) (PyInt (-4)) initial).
Proof.
  split; [reflexivity |]. split; [reflexivity |].
  exact (multiply_of_negations (PyInt (-3)) (PyInt (-4)) initial
           eq_refl eq_refl).
Defined.

(** X11.  [divide(-a, -b)] has the outcome of [divide(a, b)], value or error,
    when neither argument is the integer [0]. *)
Theorem divide_of_negations (a b : value) (st : state) :
  is_int_zero a = false -> is_int_zero b = false ->
  outcome (divide (neg a) (neg b) st) = outcome (divide a b st).
Proof.
  intros Ha Hb. rewrite !divide_run, equal_zero_neg.
  destruct (Py.equal b (PyInt 0)) eqn:Hz; [reflexivity |].
  cbn [outcome fst].
  destruct a as [x | x], b as [y | y]; cbn [neg binary_op int_op float_op].
  - assert (Hx : x <> 0) by (intros ->; discriminate Ha).
    assert (Hy : y <> 0) by (intros ->; discriminate Hb).
    unfold int_true_divide.
    replace (- y =? 0) with (y =? 0) by (destruct y; reflexivity).
    destruct (exact_of_Z_opp x) as [-> | ?]; [| contradiction].
    destruct (exact_of_Z_opp y) as [-> | ?]; [| contradiction].
    rewrite SFdiv_opp_opp. reflexivity.
  - assert (Hx : x <> 0) by (intros ->; discriminate Ha).
    rewrite int_to_float_opp by exact Hx.
    destruct (int_to_float x); cbn [rbind]; [| reflexivity].
    rewrite is_zero_opp, SFdiv_opp_opp. reflexivity.
  - assert (Hy : y <> 0) by (intros ->; discriminate Hb).
    rewrite int_to_float_opp by exact Hy.
    destruct (int_to_float y); cbn [rbind]; [| reflexivity].
    rewrite is_zero_opp, SFdiv_opp_opp. reflexivity.
  - rewrite is_zero_opp, SFdiv_opp_opp. reflexivity.
Qed.

Lemma divide_of_negations_witness :
  is_int_zero (PyInt (-10)) = false /\ is_int_zero (PyInt (-2)) = false /\
  outcome (divide (neg (PyInt (-10))) (neg (PyInt (-2))) initial) =
    outcome (divide (PyInt (-10)) (PyInt (-2)) initial).
Proof.
  split; [reflexivity |]. split; [reflexivity |].
  exact (divide_of_negations (PyInt (-10)) (PyInt (-2)) initial
           eq_refl eq_refl).
Defined.

End Negations.

(** ** The module's unit tests

  The assertions of [tests/test_calculator.py], evaluated on the
  model. *)

Section UnitTests.

Example test_add :
  returns_equal (add (PyInt 2) (PyInt 3)) (PyInt 5) = true /\
  returns_equal (add (PyInt (-2)) (PyInt (-3))) (PyInt (-5)) = true /\
  returns_equal (add (PyInt 5) (PyInt (-3))) (PyInt 2) = true.
Proof. repeat split. Qed.

Example test_subtract :
  returns_equal (subtract (PyInt 5) (PyInt 3)) (PyInt 2) = true /\
  returns_equal (subtract (PyInt (-5)) (PyInt (-3))) (PyInt (-2)) = true /\
  returns_equal (subtract (PyInt 5) (PyInt (-3))) (PyInt 8) = true.
Proof. repeat split. Qed.

Example test_multiply :
  returns_equal (multiply (PyInt 3) (PyInt 4)) (PyInt 12) = true /\
  returns_equal (multiply (PyInt (-3)) (PyInt (-4))) (PyInt 12) = true /\
  returns_equal (multiply (PyInt 3) (PyInt (-4))) (PyInt (-12)) = true /\
  returns_equal (multiply (PyInt 5) (PyInt 0)) (PyInt 0) = true.
Proof. repeat split. Qed.

Example test_divide :
  returns_equal (divide (PyInt 10) (PyInt 2)) (PyInt 5) = true /\
  returns_equal (divide (PyInt (-10)) (PyInt (-2))) (PyInt 5) = true /\
  returns_equal (divide (PyInt 10) (PyInt (-2))) (PyInt (-5)) = true /\
  outcome (divide (PyInt 10) (PyInt 0) initial) =
    Raise (ValueError "Cannot divide by zero") /\
  returns_equal (divide (PyInt 0) (PyInt 5)) (PyInt 0) = true.
Proof. repeat split. Qed.

(** The literals of the examples are the floats Python reads. *)
Example float_literals :
  float_of_Z_exp 1 0 = float_1 /\
  SFdiv prec emax (float_of_Z_exp 1 0) (float_of_Z_exp 10 0) = float_0_1 /\
  float_of_Z_exp (10 ^ 308) 0 = float_1e308 /\
  float_of_Z_exp 10 0 = float_10.
Proof. repeat split; vm_compute; reflexivity. Qed.

End UnitTests.
